(** * flint.arrow: marshalling between Python values and Arrow scalars/arrays

    A shallow embedding of [src/flint/arrow.py].  The module is a thin layer
    over the columnar engine (pyarrow, imported as [pa]); the part of the
    engine the module calls ([pa.scalar], [pa.array], [Scalar.as_py],
    [Array.to_pylist], iteration and indexing of scalars) comes first,
    then the four marshaller classes and the derivation function. *)

From Stdlib Require Import ZArith List String Ascii Bool Lia Permutation SpecFloat.
Import ListNotations.
Set Warnings "-register-all".
Local Open Scope string_scope.
Local Open Scope Z_scope.

(** ** The columnar engine: data types *)

Inductive DataType :=
| pa_null
| pa_bool_
| pa_int8 | pa_int16 | pa_int32 | pa_int64
| pa_uint8 | pa_uint16 | pa_uint32 | pa_uint64
| pa_float16 | pa_float32 | pa_float64
| pa_string
| pa_binary
| pa_list_ (value_type : DataType)
| pa_map_ (key_type item_type : DataType)
| pa_struct (fields : list (string * DataType)).

(** Induction over data types that reaches the field types of a struct. *)
Section DataType_induction.
Variable P : DataType -> Prop.
Hypothesis Hnull : P pa_null.
Hypothesis Hbool : P pa_bool_.
Hypothesis Hi8 : P pa_int8.
Hypothesis Hi16 : P pa_int16.
Hypothesis Hi32 : P pa_int32.
Hypothesis Hi64 : P pa_int64.
Hypothesis Hu8 : P pa_uint8.
Hypothesis Hu16 : P pa_uint16.
Hypothesis Hu32 : P pa_uint32.
Hypothesis Hu64 : P pa_uint64.
Hypothesis Hf16 : P pa_float16.
Hypothesis Hf32 : P pa_float32.
Hypothesis Hf64 : P pa_float64.
Hypothesis Hstring : P pa_string.
Hypothesis Hbinary : P pa_binary.
Hypothesis Hlist : forall E, P E -> P (pa_list_ E).
Hypothesis Hmap : forall K V, P K -> P V -> P (pa_map_ K V).
Hypothesis Hstruct :
  forall fs, Forall (fun nt => P (snd nt)) fs -> P (pa_struct fs).

Fixpoint DataType_ind' (T : DataType) : P T :=
  match T with
  | pa_null => Hnull | pa_bool_ => Hbool
  | pa_int8 => Hi8 | pa_int16 => Hi16 | pa_int32 => Hi32 | pa_int64 => Hi64
  | pa_uint8 => Hu8 | pa_uint16 => Hu16 | pa_uint32 => Hu32
  | pa_uint64 => Hu64
  | pa_float16 => Hf16 | pa_float32 => Hf32 | pa_float64 => Hf64
  | pa_string => Hstring | pa_binary => Hbinary
  | pa_list_ E => Hlist E (DataType_ind' E)
  | pa_map_ K V => Hmap K V (DataType_ind' K) (DataType_ind' V)
  | pa_struct fs =>
      Hstruct fs
        ((fix go (l : list (string * DataType)) :
            Forall (fun nt => P (snd nt)) l :=
            match l with
            | [] => Forall_nil _
            | nt :: l' => Forall_cons nt (DataType_ind' (snd nt)) (go l')
            end) fs)
  end.
End DataType_induction.

(** [DataType.__eq__] *)
Fixpoint DataType_eqb (a b : DataType) {struct a} : bool :=
  match a, b with
  | pa_null, pa_null | pa_bool_, pa_bool_
  | pa_int8, pa_int8 | pa_int16, pa_int16
  | pa_int32, pa_int32 | pa_int64, pa_int64
  | pa_uint8, pa_uint8 | pa_uint16, pa_uint16
  | pa_uint32, pa_uint32 | pa_uint64, pa_uint64
  | pa_float16, pa_float16 | pa_float32, pa_float32
  | pa_float64, pa_float64
  | pa_string, pa_string | pa_binary, pa_binary => true
  | pa_list_ x, pa_list_ y => DataType_eqb x y
  | pa_map_ k v, pa_map_ k' v' => DataType_eqb k k' && DataType_eqb v v'
  | pa_struct fs, pa_struct gs =>
      (fix go (l m : list (string * DataType)) {struct l} : bool :=
         match l, m with
         | [], [] => true
         | (n, t) :: l', (n', t') :: m' =>
             String.eqb n n' && DataType_eqb t t' && go l' m'
         | _, _ => false
         end) fs gs
  | _, _ => false
  end.

(** ** The columnar engine: scalars and arrays *)

(** A scalar of the engine.  [Null T] is the invalid (null) scalar of data
    type [T]; integer and float scalars record their width; a list or map
    scalar records its child types and a struct scalar its fields in their
    physical order. *)
Inductive Scalar :=
| Null (type : DataType)
| BooleanScalar (b : bool)
| IntScalar (type : DataType) (z : Z)
| FloatScalar (type : DataType) (f : spec_float)
| StringScalar (s : string)
| BinaryScalar (b : string)
| ListScalar (value_type : DataType) (values : list Scalar)
| MapScalar (key_type item_type : DataType) (values : list (Scalar * Scalar))
| StructScalar (items : list (string * Scalar)).

Section Scalar_induction.
Variable P : Scalar -> Prop.
Hypothesis HNull : forall T, P (Null T).
Hypothesis HBool : forall b, P (BooleanScalar b).
Hypothesis HInt : forall T z, P (IntScalar T z).
Hypothesis HFloat : forall T f, P (FloatScalar T f).
Hypothesis HString : forall s, P (StringScalar s).
Hypothesis HBinary : forall b, P (BinaryScalar b).
Hypothesis HList : forall E vs, Forall P vs -> P (ListScalar E vs).
Hypothesis HMap :
  forall K V es, Forall (fun kv => P (fst kv) /\ P (snd kv)) es ->
                 P (MapScalar K V es).
Hypothesis HStruct :
  forall its, Forall (fun nv => P (snd nv)) its -> P (StructScalar its).

Fixpoint Scalar_ind' (s : Scalar) : P s :=
  match s with
  | Null T => HNull T
  | BooleanScalar b => HBool b
  | IntScalar T z => HInt T z
  | FloatScalar T f => HFloat T f
  | StringScalar x => HString x
  | BinaryScalar b => HBinary b
  | ListScalar E vs =>
      HList E vs
        ((fix go (l : list Scalar) : Forall P l :=
            match l with
            | [] => Forall_nil _
            | x :: l' => Forall_cons x (Scalar_ind' x) (go l')
            end) vs)
  | MapScalar K V es =>
      HMap K V es
        ((fix go (l : list (Scalar * Scalar)) :
            Forall (fun kv => P (fst kv) /\ P (snd kv)) l :=
            match l with
            | [] => Forall_nil _
            | kv :: l' =>
                Forall_cons kv
                  (conj (Scalar_ind' (fst kv)) (Scalar_ind' (snd kv)))
                  (go l')
            end) es)
  | StructScalar its =>
      HStruct its
        ((fix go (l : list (string * Scalar)) :
            Forall (fun nv => P (snd nv)) l :=
            match l with
            | [] => Forall_nil _
            | nv :: l' => Forall_cons nv (Scalar_ind' (snd nv)) (go l')
            end) its)
  end.
End Scalar_induction.

(** [Scalar.type] *)
Fixpoint type_of (s : Scalar) : DataType :=
  match s with
  | Null T => T
  | BooleanScalar _ => pa_bool_
  | IntScalar T _ => T
  | FloatScalar T _ => T
  | StringScalar _ => pa_string
  | BinaryScalar _ => pa_binary
  | ListScalar E _ => pa_list_ E
  | MapScalar K V _ => pa_map_ K V
  | StructScalar its => pa_struct (map (fun nv => (fst nv, type_of (snd nv))) its)
  end.

(** [Scalar.is_valid] *)
Definition is_valid (s : Scalar) : bool :=
  match s with
  | Null _ => false
  | _ => true
  end.

(** [Scalar.equals], which [==] on two scalars calls: the data types are
    equal, and both scalars are null or both are valid with equal values.
    Floats compare as numbers (a NaN equals nothing, the two zeros are
    equal); the children of a list, map or struct scalar compare one by
    one. *)
Fixpoint scalar_equals (a b : Scalar) {struct a} : bool :=
  DataType_eqb (type_of a) (type_of b) &&
  match a, b with
  | Null _, Null _ => true
  | BooleanScalar x, BooleanScalar y => Bool.eqb x y
  | IntScalar _ x, IntScalar _ y => x =? y
  | FloatScalar _ f, FloatScalar _ g => SFeqb f g
  | StringScalar s, StringScalar t => String.eqb s t
  | BinaryScalar s, BinaryScalar t => String.eqb s t
  | ListScalar _ l, ListScalar _ m =>
      (fix go (l m : list Scalar) {struct l} : bool :=
         match l, m with
         | [], [] => true
         | x :: l', y :: m' => scalar_equals x y && go l' m'
         | _, _ => false
         end) l m
  | MapScalar _ _ l, MapScalar _ _ m =>
      (fix go (l m : list (Scalar * Scalar)) {struct l} : bool :=
         match l, m with
         | [], [] => true
         | (k, x) :: l', (k', x') :: m' =>
             scalar_equals k k' && scalar_equals x x' && go l' m'
         | _, _ => false
         end) l m
  | StructScalar l, StructScalar m =>
      (fix go (l m : list (string * Scalar)) {struct l} : bool :=
         match l, m with
         | [], [] => true
         | (n, x) :: l', (n', x') :: m' =>
             String.eqb n n' && scalar_equals x x' && go l' m'
         | _, _ => false
         end) l m
  | _, _ => false
  end.

Record Array := mkArray { array_type : DataType; array_values : list Scalar }.

(** [isinstance(s, pa.ListScalar)] and its siblings: the class of a scalar or
    array is fixed by its data type. *)
Definition is_list_type (T : DataType) : bool :=
  match T with pa_list_ _ => true | _ => false end.
Definition is_map_type (T : DataType) : bool :=
  match T with pa_map_ _ _ => true | _ => false end.
Definition is_struct_type (T : DataType) : bool :=
  match T with pa_struct _ => true | _ => false end.

(** ** Python values *)

Inductive PyVal :=
| PyNone
| PyBool (b : bool)
| PyInt (z : Z)
| PyFloat (f : spec_float)
| PyStr (s : string)
| PyBytes (b : string)
| PyList (l : list PyVal)
| PyTuple (l : list PyVal)
| PyDict (items : list (PyVal * PyVal))
| PyObject (cls : string) (dict : list (string * PyVal))
| PyArrowScalar (s : Scalar).

Section PyVal_induction.
Variable P : PyVal -> Prop.
Hypothesis HNone : P PyNone.
Hypothesis HBool : forall b, P (PyBool b).
Hypothesis HInt : forall z, P (PyInt z).
Hypothesis HFloat : forall f, P (PyFloat f).
Hypothesis HStr : forall s, P (PyStr s).
Hypothesis HBytes : forall b, P (PyBytes b).
Hypothesis HList : forall l, Forall P l -> P (PyList l).
Hypothesis HTuple : forall l, Forall P l -> P (PyTuple l).
Hypothesis HDict :
  forall d, Forall (fun kv => P (fst kv) /\ P (snd kv)) d -> P (PyDict d).
Hypothesis HObject :
  forall c d, Forall (fun nv => P (snd nv)) d -> P (PyObject c d).
Hypothesis HScalar : forall s, P (PyArrowScalar s).

Fixpoint PyVal_ind' (v : PyVal) : P v :=
  match v with
  | PyNone => HNone
  | PyBool b => HBool b
  | PyInt z => HInt z
  | PyFloat f => HFloat f
  | PyStr s => HStr s
  | PyBytes b => HBytes b
  | PyList l =>
      HList l
        ((fix go (l : list PyVal) : Forall P l :=
            match l with
            | [] => Forall_nil _
            | x :: l' => Forall_cons x (PyVal_ind' x) (go l')
            end) l)
  | PyTuple l =>
      HTuple l
        ((fix go (l : list PyVal) : Forall P l :=
            match l with
            | [] => Forall_nil _
            | x :: l' => Forall_cons x (PyVal_ind' x) (go l')
            end) l)
  | PyDict d =>
      HDict d
        ((fix go (l : list (PyVal * PyVal)) :
            Forall (fun kv => P (fst kv) /\ P (snd kv)) l :=
            match l with
            | [] => Forall_nil _
            | kv :: l' =>
                Forall_cons kv
                  (conj (PyVal_ind' (fst kv)) (PyVal_ind' (snd kv)))
                  (go l')
            end) d)
  | PyObject c d =>
      HObject c d
        ((fix go (l : list (string * PyVal)) :
            Forall (fun nv => P (snd nv)) l :=
            match l with
            | [] => Forall_nil _
            | nv :: l' => Forall_cons nv (PyVal_ind' (snd nv)) (go l')
            end) d)
  | PyArrowScalar s => HScalar s
  end.
End PyVal_induction.

(** ** Exceptions and the error monad *)

(** The Python exceptions the code and the engine raise.  [NotImplementedError]
    carries the f-string argument of the one [raise] of arrow.py. *)
Inductive Exception :=
| ArrowInvalid
| ArrowTypeError
| TypeError
| ValueError
| KeyError (key : PyVal)
| IndexError
| AttributeError
| AssertionError
| OverflowError
| NotImplementedError (msg : string).

Inductive result (A : Type) :=
| Ok (a : A)
| Raise (e : Exception).
Arguments Ok {A} a.
Arguments Raise {A} e.

Definition bind {A B} (c : result A) (k : A -> result B) : result B :=
  match c with
  | Ok a => k a
  | Raise e => Raise e
  end.

Notation "x <- c ;; k" := (bind c (fun x => k))
  (at level 61, c at next level, right associativity).
Notation "' p <- c ;; k" := (bind c (fun x => let p := x in k))
  (at level 61, p pattern, c at next level, right associativity).

(** [[f(x) for x in l]]: a list comprehension whose body may raise. *)
Definition mapM {A B} (f : A -> result B) : list A -> result (list B) :=
  fix go l :=
    match l with
    | [] => Ok []
    | x :: l' => y <- f x ;; ys <- go l' ;; Ok (y :: ys)
    end.

(** [assert cond] *)
Definition assert (cond : bool) : result unit :=
  if cond then Ok tt else Raise AssertionError.

(** ** Python dictionaries

    A [dict] keeps its items in insertion order and its keys unique; a key
    must be hashable.  Two keys are the same key when they compare equal
    with [==].  (Python looks a key up by identity first and by [==] next;
    the values here carry no identity, which matters only for a key that
    does not equal itself, a NaN or a tuple or scalar holding one, when the
    very same object is stored twice.) *)

(** [hash(k)] succeeds: lists, dicts, dataclass instances (which define
    [__eq__] but no [__hash__]) are unhashable. *)
Fixpoint hashable (v : PyVal) : bool :=
  match v with
  | PyNone | PyBool _ | PyInt _ | PyFloat _ | PyStr _ | PyBytes _ => true
  | PyTuple l => forallb hashable l
  | PyList _ | PyDict _ | PyObject _ _ => false
  | PyArrowScalar _ => true
  end.

(** The exact comparison of a float with an integer. *)
Definition float_eq_int (f : spec_float) (z : Z) : bool :=
  match f with
  | S754_zero _ => z =? 0
  | S754_finite s m e =>
      let v := cond_Zopp s (Zpos m) in
      if 0 <=? e then z =? v * 2 ^ e else z * 2 ^ (- e) =? v
  | _ => false
  end.

(** [a == b] on hashable values: the numeric kinds compare by value (so
    [True == 1 == 1.0], and a NaN equals nothing), the others within their
    kind; two engine scalars compare with [Scalar.equals], and a scalar
    equals no other Python value. *)
Fixpoint key_eq (a b : PyVal) {struct a} : bool :=
  match a, b with
  | PyNone, PyNone => true
  | PyBool x, PyBool y => Bool.eqb x y
  | PyBool x, PyInt z | PyInt z, PyBool x => Z.b2z x =? z
  | PyInt x, PyInt y => x =? y
  | PyFloat f, PyFloat g => SFeqb f g
  | PyFloat f, PyInt z | PyInt z, PyFloat f => float_eq_int f z
  | PyFloat f, PyBool x | PyBool x, PyFloat f => float_eq_int f (Z.b2z x)
  | PyStr s, PyStr t => String.eqb s t
  | PyBytes s, PyBytes t => String.eqb s t
  | PyTuple l, PyTuple m =>
      (fix go (l m : list PyVal) {struct l} : bool :=
         match l, m with
         | [], [] => true
         | x :: l', y :: m' => key_eq x y && go l' m'
         | _, _ => false
         end) l m
  | PyArrowScalar s, PyArrowScalar t => scalar_equals s t
  | _, _ => false
  end.

(** [d[k] = v] on the items of a dict whose key is already known to be
    hashable: an existing key keeps its place (and its key object). *)
Fixpoint dict_update (d : list (PyVal * PyVal)) (k v : PyVal)
  : list (PyVal * PyVal) :=
  match d with
  | [] => [(k, v)]
  | (k', v') :: d' =>
      if key_eq k' k then (k', v) :: d' else (k', v') :: dict_update d' k v
  end.

(** [d[k] = v] *)
Definition dict_setitem (d : list (PyVal * PyVal)) (k v : PyVal)
  : result (list (PyVal * PyVal)) :=
  if hashable k then Ok (dict_update d k v) else Raise TypeError.

(** [{key(x): value(x) for x in l}], started from the items [d]: each
    iteration evaluates the key, then the value, then stores the entry. *)
Definition dict_comp {A} (f : A -> result (PyVal * PyVal))
  : list A -> list (PyVal * PyVal) -> result (list (PyVal * PyVal)) :=
  fix go l d :=
    match l with
    | [] => Ok d
    | x :: l' =>
        kv <- f x ;;
        d' <- dict_setitem d (fst kv) (snd kv) ;;
        go l' d'
    end.

(** [d.get(k)] *)
Fixpoint dict_get (d : list (PyVal * PyVal)) (k : PyVal) : option PyVal :=
  match d with
  | [] => None
  | (k', v) :: d' => if key_eq k' k then Some v else dict_get d' k
  end.

(** Dictionaries keyed by strings (attribute dictionaries, keyword
    arguments, the [fields] of a struct marshaller). *)
Section StrDict.
Context {A : Type}.

Fixpoint sdict_get (d : list (string * A)) (k : string) : option A :=
  match d with
  | [] => None
  | (k', v) :: d' => if String.eqb k' k then Some v else sdict_get d' k
  end.

Fixpoint sdict_set (d : list (string * A)) (k : string) (v : A)
  : list (string * A) :=
  match d with
  | [] => [(k, v)]
  | (k', v') :: d' =>
      if String.eqb k' k then (k', v) :: d' else (k', v') :: sdict_set d' k v
  end.

(** [{k: v for k, v in l}] *)
Definition sdict_of (l : list (string * A)) : list (string * A) :=
  fold_left (fun d kv => sdict_set d (fst kv) (snd kv)) l [].
End StrDict.

(** An attribute dictionary seen as a Python dict. *)
Definition as_dict (d : list (string * PyVal)) : PyVal :=
  PyDict (map (fun nv => (PyStr (fst nv), snd nv)) d).

(** ** The columnar engine: Python to Arrow

    [pa.scalar(value, type=T)] and [pa.array(values, type=T)] run the same
    converter, the first on the one-element sequence [[value]].  The
    converter is given on the Python inputs that arrow.py and its callers
    pass: [None], bool, int, float, str, bytes, list, tuple, dict, dataclass
    instances and engine scalars.  [None] becomes a null of the requested
    type and an engine scalar is taken as it is when its type is the
    requested one.  A struct is built from a dict (by field name, a missing
    name giving null, extra names ignored), a map from a dict or from a
    sequence of pairs, and its keys must not be null.  A Python str is
    represented by its UTF-8 encoding. *)

Definition int_bounds (T : DataType) : option (Z * Z) :=
  match T with
  | pa_int8 => Some (- 2 ^ 7, 2 ^ 7 - 1)
  | pa_int16 => Some (- 2 ^ 15, 2 ^ 15 - 1)
  | pa_int32 => Some (- 2 ^ 31, 2 ^ 31 - 1)
  | pa_int64 => Some (- 2 ^ 63, 2 ^ 63 - 1)
  | pa_uint8 => Some (0, 2 ^ 8 - 1)
  | pa_uint16 => Some (0, 2 ^ 16 - 1)
  | pa_uint32 => Some (0, 2 ^ 32 - 1)
  | pa_uint64 => Some (0, 2 ^ 64 - 1)
  | _ => None
  end.

(** The integer fits the 64-bit C integer, signed or unsigned as the data
    type is, through which the engine reads a Python int (it is Python that
    raises [OverflowError] otherwise). *)
Definition fits_c_long (lo z : Z) : bool :=
  if lo <? 0 then (- 2 ^ 63 <=? z) && (z <=? 2 ^ 63 - 1)
  else (0 <=? z) && (z <=? 2 ^ 64 - 1).

(** Precision and exponent bound of a floating-point data type. *)
Definition float_format (T : DataType) : option (Z * Z) :=
  match T with
  | pa_float16 => Some (11, 16)
  | pa_float32 => Some (24, 128)
  | pa_float64 => Some (53, 1024)
  | _ => None
  end.

(** The cast of a Python float (a double) to a float format: round to
    nearest even; a double stays as it is. *)
Definition narrow (prec emax : Z) (f : spec_float) : spec_float :=
  if prec =? 53 then f else
  match f with
  | S754_finite s m e => binary_round prec emax s m e
  | _ => f
  end.

(** Well-formed UTF-8, one byte at a time: [need] continuation bytes are
    still expected, the next of them within [lo..hi]. *)
Fixpoint utf8_from (need : nat) (lo hi : N) (s : string) : bool :=
  match s with
  | EmptyString => match need with O => true | _ => false end
  | String c s' =>
      let b := N_of_ascii c in
      match need with
      | S n => ((lo <=? b) && (b <=? hi))%N && utf8_from n 128 191 s'
      | O =>
          if (b <=? 127)%N then utf8_from 0 128 191 s'
          else if ((194 <=? b) && (b <=? 223))%N then utf8_from 1 128 191 s'
          else if (b =? 224)%N then utf8_from 2 160 191 s'
          else if (b =? 237)%N then utf8_from 2 128 159 s'
          else if ((225 <=? b) && (b <=? 239))%N then utf8_from 2 128 191 s'
          else if (b =? 240)%N then utf8_from 3 144 191 s'
          else if ((241 <=? b) && (b <=? 243))%N then utf8_from 3 128 191 s'
          else if (b =? 244)%N then utf8_from 3 128 143 s'
          else false
      end
  end.

Definition valid_utf8 (s : string) : bool := utf8_from 0 128 191 s.

(** The converter of a primitive data type on a value that is neither
    [None] nor an engine scalar. *)
Definition convert_primitive (T : DataType) (v : PyVal) : result Scalar :=
  match T with
  | pa_null => Raise ArrowInvalid
  | pa_bool_ =>
      match v with
      | PyBool b => Ok (BooleanScalar b)
      | _ => Raise ArrowInvalid
      end
  | pa_string =>
      match v with
      | PyStr s => Ok (StringScalar s)
      | PyBytes b =>
          if valid_utf8 b then Ok (StringScalar b) else Raise ArrowInvalid
      | _ => Raise ArrowTypeError
      end
  | pa_binary =>
      match v with
      | PyBytes b => Ok (BinaryScalar b)
      | PyStr s => Ok (BinaryScalar s)
      | _ => Raise ArrowTypeError
      end
  | _ =>
      match int_bounds T, float_format T with
      | Some (lo, hi), _ =>
          match v with
          | PyInt z =>
              if fits_c_long lo z then
                if (lo <=? z) && (z <=? hi) then Ok (IntScalar T z)
                else Raise ArrowInvalid
              else Raise OverflowError
          | PyBool _ => Raise ArrowTypeError
          | _ => Raise ArrowInvalid
          end
      | None, Some (prec, emax) =>
          let of_int z :=
            if Z.abs z <=? 2 ^ prec
            then Ok (FloatScalar T (binary_normalize prec emax z 0 false))
            else Raise ArrowInvalid in
          match v with
          | PyFloat f => Ok (FloatScalar T (narrow prec emax f))
          | PyInt z => of_int z
          | PyBool b => of_int (Z.b2z b)
          | _ => Raise ArrowInvalid
          end
      | None, None => Raise ArrowTypeError
      end
  end.

(** The entries of a map must have valid (non-null) keys. *)
Definition check_map_keys (es : list (Scalar * Scalar)) : result unit :=
  if forallb (fun kv => is_valid (fst kv)) es then Ok tt
  else Raise ArrowInvalid.

(** One [(key, value)] pair of a map given as a sequence of pairs. *)
Definition as_pair (v : PyVal) : result (PyVal * PyVal) :=
  match v with
  | PyTuple [k; x] => Ok (k, x)
  | PyTuple _ => Raise ArrowInvalid
  | _ => Raise ArrowTypeError
  end.

(** The converter for data type [T] applied to one Python value. *)
Fixpoint convert (T : DataType) (v : PyVal) {struct T} : result Scalar :=
  match v with
  | PyNone => Ok (Null T)
  | PyArrowScalar s =>
      if DataType_eqb (type_of s) T then Ok s else Raise ArrowInvalid
  | _ =>
      match T with
      | pa_list_ E =>
          match v with
          | PyList l | PyTuple l =>
              vs <- mapM (convert E) l ;; Ok (ListScalar E vs)
          | _ => Raise ArrowTypeError
          end
      | pa_map_ K V =>
          let entry kx :=
            k <- convert K (fst kx) ;;
            x <- convert V (snd kx) ;;
            Ok (k, x) in
          match v with
          | PyDict d =>
              es <- mapM entry d ;;
              _ <- check_map_keys es ;;
              Ok (MapScalar K V es)
          | PyList l | PyTuple l =>
              es <- mapM (fun p => kx <- as_pair p ;; entry kx) l ;;
              _ <- check_map_keys es ;;
              Ok (MapScalar K V es)
          | _ => Raise ArrowTypeError
          end
      | pa_struct fs =>
          match v with
          | PyDict d =>
              its <-
                (fix go (fs : list (string * DataType))
                   : result (list (string * Scalar)) :=
                   match fs with
                   | [] => Ok []
                   | (n, t) :: fs' =>
                       x <- convert t
                              match dict_get d (PyStr n) with
                              | Some x => x
                              | None => PyNone
                              end ;;
                       its <- go fs' ;;
                       Ok ((n, x) :: its)
                   end) fs ;;
              Ok (StructScalar its)
          | _ => Raise ArrowTypeError
          end
      | _ => convert_primitive T v
      end
  end.

(** [pa.scalar(py, type=T)] *)
Definition pa_scalar (py : PyVal) (T : DataType) : result Scalar :=
  convert T py.

(** [pa.array(py, type=T)] *)
Definition pa_array (py : list PyVal) (T : DataType) : result Array :=
  vs <- mapM (convert T) py ;; Ok (mkArray T vs).

(** ** The columnar engine: Arrow to Python *)

(** The field names of a struct scalar are usable as keys only when no name
    occurs twice ([StructScalar.__getitem__] raises [KeyError] otherwise). *)
Definition duplicated (l : list string) : option string :=
  find (fun n => negb (Nat.eqb (count_occ string_dec l n) 1)) l.

(** [Scalar.as_py()]: a null gives [None], a list a list, a map the list of
    its [(key, value)] tuples, a struct a dict keyed by field name. *)
Fixpoint as_py (s : Scalar) : result PyVal :=
  match s with
  | Null _ => Ok PyNone
  | BooleanScalar b => Ok (PyBool b)
  | IntScalar _ z => Ok (PyInt z)
  | FloatScalar _ f => Ok (PyFloat f)
  | StringScalar x => Ok (PyStr x)
  | BinaryScalar b => Ok (PyBytes b)
  | ListScalar _ vs => l <- mapM as_py vs ;; Ok (PyList l)
  | MapScalar _ _ es =>
      l <- mapM (fun kv =>
                   k <- as_py (fst kv) ;;
                   x <- as_py (snd kv) ;;
                   Ok (PyTuple [k; x])) es ;;
      Ok (PyList l)
  | StructScalar its =>
      match duplicated (map fst its) with
      | None =>
          d <- mapM (fun nv => x <- as_py (snd nv) ;; Ok (PyStr (fst nv), x))
                 its ;;
          Ok (PyDict d)
      | Some _ => Raise ValueError
      end
  end.

(** [Array.to_pylist()] *)
Definition to_pylist (a : Array) : result (list PyVal) :=
  mapM as_py (array_values a).


(** ** Python protocols on values

    arrow.py is dynamically typed: [for sub in arrow], [len(arrow)],
    [arrow[i]], [arrow.items()], [arrow.as_py()] and [py.__dict__] are
    resolved on whatever object arrives.  Iteration is lazy: an iterator is
    the list of its steps, each of which yields a value or raises when it is
    reached. *)

(** [[f(x) for x in it]] *)
Definition for_each {A B} (f : A -> result B) (it : list (result A))
  : result (list B) :=
  mapM (fun step => x <- step ;; f x) it.

(** [{key(x): value(x) for x in it}] *)
Definition dict_for_each {A} (f : A -> result (PyVal * PyVal))
    (it : list (result A)) : result (list (PyVal * PyVal)) :=
  dict_comp (fun step => x <- step ;; f x) it [].

Definition is_continuation (c : ascii) : bool :=
  let b := N_of_ascii c in ((128 <=? b) && (b <=? 191))%N.

Definition starts_with_continuation (s : string) : bool :=
  match s with
  | String c _ => is_continuation c
  | EmptyString => false
  end.

(** The characters of a str, each as a str. *)
Fixpoint utf8_chars (s : string) : list string :=
  match s with
  | EmptyString => []
  | String c s' =>
      match utf8_chars s' with
      | ch :: rest =>
          if starts_with_continuation s' then String c ch :: rest
          else String c EmptyString :: ch :: rest
      | [] => [String c EmptyString]
      end
  end.

Definition bytes_ints (b : string) : list PyVal :=
  map (fun c => PyInt (Z.of_N (N_of_ascii c))) (list_ascii_of_string b).

(** [iter(v)]: a list scalar iterates over the scalars of its values (a
    null list has none to iterate, [iter(None)]); a map scalar yields the
    tuples [(k.as_py(), v.as_py())] and a null map nothing; a struct scalar
    yields its field names; a scalar of a primitive type is not iterable. *)
Definition py_iter (v : PyVal) : result (list (result PyVal)) :=
  match v with
  | PyList l | PyTuple l => Ok (map Ok l)
  | PyDict d => Ok (map (fun kv => Ok (fst kv)) d)
  | PyStr s => Ok (map (fun c => Ok (PyStr c)) (utf8_chars s))
  | PyBytes b => Ok (map Ok (bytes_ints b))
  | PyArrowScalar (ListScalar _ vs) =>
      Ok (map (fun x => Ok (PyArrowScalar x)) vs)
  | PyArrowScalar (MapScalar _ _ es) =>
      Ok (map (fun kv =>
                 k <- as_py (fst kv) ;;
                 x <- as_py (snd kv) ;;
                 Ok (PyTuple [k; x])) es)
  | PyArrowScalar (Null (pa_map_ _ _)) => Ok []
  | PyArrowScalar (StructScalar its) =>
      Ok (map (fun nv => Ok (PyStr (fst nv))) its)
  | PyArrowScalar (Null (pa_struct fs)) =>
      Ok (map (fun nt => Ok (PyStr (fst nt))) fs)
  | _ => Raise TypeError
  end.

(** [len(v)] *)
Definition py_len (v : PyVal) : result nat :=
  match v with
  | PyList l | PyTuple l => Ok (List.length l)
  | PyDict d => Ok (List.length d)
  | PyStr s => Ok (List.length (utf8_chars s))
  | PyBytes b => Ok (String.length b)
  | PyArrowScalar (ListScalar _ vs) => Ok (List.length vs)
  | PyArrowScalar (MapScalar _ _ es) => Ok (List.length es)
  | PyArrowScalar (StructScalar its) => Ok (List.length its)
  | PyArrowScalar (Null (pa_struct fs)) => Ok (List.length fs)
  | _ => Raise TypeError
  end.

Definition index {A} (l : list A) (i : nat) : result A :=
  match nth_error l i with
  | Some x => Ok x
  | None => Raise IndexError
  end.

(** [v[i]] for an index [i >= 0]. *)
Definition py_getitem (v : PyVal) (i : nat) : result PyVal :=
  match v with
  | PyList l | PyTuple l => index l i
  | PyStr s => index (map PyStr (utf8_chars s)) i
  | PyBytes b => index (bytes_ints b) i
  | PyDict d =>
      match dict_get d (PyInt (Z.of_nat i)) with
      | Some x => Ok x
      | None => Raise (KeyError (PyInt (Z.of_nat i)))
      end
  | PyArrowScalar (ListScalar _ vs) => index (map PyArrowScalar vs) i
  | PyArrowScalar (MapScalar _ _ es) =>
      index (map (fun kv => PyTuple [PyArrowScalar (fst kv);
                                     PyArrowScalar (snd kv)]) es) i
  | PyArrowScalar (Null (pa_map_ _ _)) => Raise IndexError
  | PyArrowScalar (StructScalar its) =>
      index (map (fun nv => PyArrowScalar (snd nv)) its) i
  | PyArrowScalar (Null (pa_struct fs)) =>
      index (map (fun nt => PyArrowScalar (Null (snd nt))) fs) i
  | _ => Raise TypeError
  end.

(** [k, v = p]: two values are taken from the iterator, which must then be
    exhausted. *)
Definition unpack2 (p : PyVal) : result (PyVal * PyVal) :=
  it <- py_iter p ;;
  match it with
  | [] => Raise ValueError
  | [s1] => _ <- s1 ;; Raise ValueError
  | [s1; s2] => k <- s1 ;; v <- s2 ;; Ok (k, v)
  | s1 :: s2 :: s3 :: _ => _ <- s1 ;; _ <- s2 ;; _ <- s3 ;; Raise ValueError
  end.

(** [iter(v.items())]: a dict has items, and so has a struct scalar (a
    mapping from field name to field scalar, the fields of a null struct
    being nulls), which looks each name up in turn: the lookup of a name that
    occurs twice raises [KeyError]. *)
Definition struct_item {A} (names : list string) (wrap : A -> PyVal)
    (nv : string * A) : result (PyVal * PyVal) :=
  if Nat.eqb (count_occ string_dec names (fst nv)) 1
  then Ok (PyStr (fst nv), wrap (snd nv))
  else Raise (KeyError (PyStr (fst nv))).

Definition py_items (v : PyVal) : result (list (result (PyVal * PyVal))) :=
  match v with
  | PyDict d => Ok (map Ok d)
  | PyArrowScalar (StructScalar its) =>
      Ok (map (struct_item (map fst its) PyArrowScalar) its)
  | PyArrowScalar (Null (pa_struct fs)) =>
      Ok (map (struct_item (map fst fs) (fun t => PyArrowScalar (Null t))) fs)
  | _ => Raise AttributeError
  end.

(** [arrow.as_py()] *)
Definition call_as_py (arrow : PyVal) : result PyVal :=
  match arrow with
  | PyArrowScalar s => as_py s
  | _ => Raise AttributeError
  end.

(** [py.__dict__]: the attribute dictionary of a dataclass instance; the
    other values have none. *)
Definition getattr_dict (py : PyVal) : result PyVal :=
  match py with
  | PyObject _ d => Ok (as_dict d)
  | _ => Raise AttributeError
  end.

(** The call of a dataclass [cls] with the keyword arguments [kwargs], for
    a dataclass whose fields [names] are all plain
    parameters of [__init__] without defaults: every keyword must be a
    field and every field must be given; the attribute dictionary of the new
    instance is in declaration order. *)
Definition dataclass_new (cls : string) (names : list string)
    (kwargs : list (PyVal * PyVal)) : result PyVal :=
  if forallb (fun kv => match fst kv with
                        | PyStr n => existsb (String.eqb n) names
                        | _ => false
                        end) kwargs
  then
    d <- mapM (fun n => match dict_get kwargs (PyStr n) with
                        | Some x => Ok (n, x)
                        | None => Raise TypeError
                        end) names ;;
    Ok (PyObject cls d)
  else Raise TypeError.

(** [isinstance(s, pa.ListScalar)]: [MapScalar] is a subclass of
    [ListScalar] (and [MapArray] of [ListArray]). *)
Definition isinstance_List (T : DataType) : bool :=
  is_list_type T || is_map_type T.
Definition isinstance_Map (T : DataType) : bool := is_map_type T.
Definition isinstance_Struct (T : DataType) : bool := is_struct_type T.

(** ** arrow.py: the marshallers *)

(** The builtin classes that serve as [py_type] of the basic marshallers. *)
Inductive builtin :=
| py_NoneType | py_bool | py_int | py_float | py_str | py_bytes.

(** The four concrete subclasses of [ArrowMarshaller].  A struct marshaller
    holds the name of its dataclass and its [fields] dict, in declaration
    order.  [arrow_dtype], set once by [__init__], is computed from the
    children as the constructors do. *)
Inductive ArrowMarshaller :=
| BasicTypeArrowMarshaller (py_type : builtin) (arrow_type : DataType)
| ListArrowMarshaller (elem : ArrowMarshaller)
| MapArrowMarshaller (key value : ArrowMarshaller)
| StructArrowMarshaller (cls : string)
                        (fields : list (string * ArrowMarshaller)).

Section ArrowMarshaller_induction.
Variable P : ArrowMarshaller -> Prop.
Hypothesis HBasic : forall t T, P (BasicTypeArrowMarshaller t T).
Hypothesis HList : forall e, P e -> P (ListArrowMarshaller e).
Hypothesis HMap : forall k v, P k -> P v -> P (MapArrowMarshaller k v).
Hypothesis HStruct :
  forall c fs, Forall (fun nm => P (snd nm)) fs ->
               P (StructArrowMarshaller c fs).

Fixpoint ArrowMarshaller_ind' (m : ArrowMarshaller) : P m :=
  match m with
  | BasicTypeArrowMarshaller t T => HBasic t T
  | ListArrowMarshaller e => HList e (ArrowMarshaller_ind' e)
  | MapArrowMarshaller k v =>
      HMap k v (ArrowMarshaller_ind' k) (ArrowMarshaller_ind' v)
  | StructArrowMarshaller c fs =>
      HStruct c fs
        ((fix go (l : list (string * ArrowMarshaller)) :
            Forall (fun nm => P (snd nm)) l :=
            match l with
            | [] => Forall_nil _
            | nm :: l' =>
                Forall_cons nm (ArrowMarshaller_ind' (snd nm)) (go l')
            end) fs)
  end.
End ArrowMarshaller_induction.

(** [self.arrow_dtype] *)
Fixpoint arrow_dtype (self : ArrowMarshaller) : DataType :=
  match self with
  | BasicTypeArrowMarshaller _ arrow_type => arrow_type
  | ListArrowMarshaller elem => pa_list_ (arrow_dtype elem)
  | MapArrowMarshaller key value =>
      pa_map_ (arrow_dtype key) (arrow_dtype value)
  | StructArrowMarshaller _ fields =>
      pa_struct (map (fun nm => (fst nm, arrow_dtype (snd nm))) fields)
  end.

(** [isinstance(m, BasicTypeArrowMarshaller)] *)
Definition is_basic (m : ArrowMarshaller) : bool :=
  match m with
  | BasicTypeArrowMarshaller _ _ => true
  | _ => false
  end.

(** The basic marshallers of the module. *)
Module fa.
Definition null := BasicTypeArrowMarshaller py_NoneType pa_null.
Definition boolean := BasicTypeArrowMarshaller py_bool pa_bool_.
Definition int8 := BasicTypeArrowMarshaller py_int pa_int8.
Definition int16 := BasicTypeArrowMarshaller py_int pa_int16.
Definition int32 := BasicTypeArrowMarshaller py_int pa_int32.
Definition int64 := BasicTypeArrowMarshaller py_int pa_int64.
Definition uint8 := BasicTypeArrowMarshaller py_int pa_uint8.
Definition uint16 := BasicTypeArrowMarshaller py_int pa_uint16.
Definition uint32 := BasicTypeArrowMarshaller py_int pa_uint32.
Definition uint64 := BasicTypeArrowMarshaller py_int pa_uint64.
Definition float16 := BasicTypeArrowMarshaller py_float pa_float16.
Definition float32 := BasicTypeArrowMarshaller py_float pa_float32.
Definition float64 := BasicTypeArrowMarshaller py_float pa_float64.
Definition binary := BasicTypeArrowMarshaller py_bytes pa_binary.
Definition string := BasicTypeArrowMarshaller py_str pa_string.
End fa.

(** [to_arrow] of the four classes. *)
Fixpoint to_arrow (self : ArrowMarshaller) (py : PyVal) {struct self}
  : result Scalar :=
  match self with
  | BasicTypeArrowMarshaller _ _ => pa_scalar py (arrow_dtype self)
  | ListArrowMarshaller elem =>
      s <- (if is_basic elem then pa_scalar py (arrow_dtype self)
            else
              subs <- py_iter py ;;
              l <- for_each (to_arrow elem) subs ;;
              pa_scalar (PyList (map PyArrowScalar l)) (arrow_dtype self)) ;;
      _ <- assert (isinstance_List (type_of s)) ;;
      Ok s
  | MapArrowMarshaller _ _ =>
      s <- pa_scalar py (arrow_dtype self) ;;
      _ <- assert (isinstance_Map (type_of s)) ;;
      Ok s
  | StructArrowMarshaller _ _ =>
      d <- getattr_dict py ;;
      a <- pa_scalar d (arrow_dtype self) ;;
      _ <- assert (isinstance_Struct (type_of a)) ;;
      Ok a
  end.

(** [from_arrow] of the four classes. *)
Fixpoint from_arrow (self : ArrowMarshaller) (arrow : PyVal) {struct self}
  : result PyVal :=
  match self with
  | BasicTypeArrowMarshaller _ _ => call_as_py arrow
  | ListArrowMarshaller elem =>
      if is_basic elem then call_as_py arrow
      else
        subs <- py_iter arrow ;;
        l <- for_each (from_arrow elem) subs ;;
        Ok (PyList l)
  | MapArrowMarshaller key value =>
      if is_basic key && is_basic value then
        ps <- py_iter arrow ;;
        d <- dict_for_each unpack2 ps ;;
        Ok (PyDict d)
      else
        n <- py_len arrow ;;
        d <- dict_comp
               (fun i =>
                  e <- py_getitem arrow i ;;
                  e0 <- py_getitem e 0 ;;
                  k <- from_arrow key e0 ;;
                  e' <- py_getitem arrow i ;;
                  e1 <- py_getitem e' 1 ;;
                  v <- from_arrow value e1 ;;
                  Ok (k, v))
               (seq 0 n) [] ;;
        Ok (PyDict d)
  | StructArrowMarshaller cls fields =>
      items <- py_items arrow ;;
      kwargs <-
        dict_for_each
          (fun fv =>
             x <- (fix call (fs : list (string * ArrowMarshaller))
                     : result PyVal :=
                     match fs with
                     | [] => Raise (KeyError (fst fv))
                     | (n, m) :: fs' =>
                         if key_eq (PyStr n) (fst fv)
                         then from_arrow m (snd fv)
                         else call fs'
                     end) fields ;;
             Ok (fst fv, x))
          items ;;
      dataclass_new cls (map fst fields) kwargs
  end.

(** [to_arrow_array] of the four classes. *)
Definition to_arrow_array (self : ArrowMarshaller) (py : list PyVal)
  : result Array :=
  let encode_each :=
    l <- mapM (to_arrow self) py ;;
    pa_array (map PyArrowScalar l) (arrow_dtype self) in
  match self with
  | BasicTypeArrowMarshaller _ _ => pa_array py (arrow_dtype self)
  | ListArrowMarshaller elem =>
      a <- (if is_basic elem then pa_array py (arrow_dtype self)
            else encode_each) ;;
      _ <- assert (isinstance_List (array_type a)) ;;
      Ok a
  | MapArrowMarshaller key value =>
      a <- (if is_basic key && is_basic value
            then pa_array py (arrow_dtype self)
            else encode_each) ;;
      _ <- assert (isinstance_Map (array_type a)) ;;
      Ok a
  | StructArrowMarshaller _ _ =>
      a <- encode_each ;;
      _ <- assert (isinstance_Struct (array_type a)) ;;
      Ok a
  end.

(** [from_arrow_array] of the four classes. *)
Definition from_arrow_array (self : ArrowMarshaller) (arrow : Array)
  : result (list PyVal) :=
  let decode_each :=
    mapM (from_arrow self) (map PyArrowScalar (array_values arrow)) in
  match self with
  | BasicTypeArrowMarshaller _ _ => to_pylist arrow
  | ListArrowMarshaller elem =>
      if is_basic elem then to_pylist arrow else decode_each
  | MapArrowMarshaller _ _ => decode_each
  | StructArrowMarshaller _ _ => decode_each
  end.

(** ** arrow.py: derivation *)

(** A class as derivation sees it: its printed name and whether it is a
    subclass of [collections.abc.Sequence] or of [collections.abc.Mapping]. *)
Record PyClass := mkClass {
  class_name : string;
  issubclass_Sequence : bool;
  issubclass_Mapping : bool
}.

(** What [get_origin] gives for a parameterised generic: a class ([list],
    [dict], [tuple], [set]), or a special form of the typing module
    ([typing.Union], [typing.ClassVar], [typing.Final], [typing.Literal]),
    an object that is no class. *)
Inductive Origin :=
| origin_class (c : PyClass)
| special_form.

(** The type objects handed to derivation: the six builtin classes the
    function tests with [is]; a dataclass with its fields in declaration
    order (the values of [__dataclass_fields__], which hold the [ClassVar]
    pseudo-fields too); a parameterised generic [origin[args]] over a class,
    such as [list[int]], [dict[str, int]], [tuple[int, str]] or [set[int]];
    any other class; a parameterised special form such as
    [Union[int, str]], [Optional[int]], [ClassVar[int]] or [Final[int]],
    with the text it prints as.  A field carries its name, its declared type
    and the ['arrow_marshaller'] entry of its metadata, if any. *)
Inductive PyType :=
| builtin_class (b : builtin)
| dataclass (name : string) (dataclass_fields : list Field)
| generic_alias (origin : PyClass) (args : list PyType)
| other_class (c : PyClass)
| special_alias (printed : string) (args : list PyType)
with Field :=
| mkField (name : string) (type : PyType)
          (arrow_marshaller : option ArrowMarshaller).

Definition field_name (f : Field) : string :=
  match f with mkField n _ _ => n end.
Definition field_type (f : Field) : PyType :=
  match f with mkField _ t _ => t end.
Definition field_metadata (f : Field) : option ArrowMarshaller :=
  match f with mkField _ _ m => m end.

(** [is_dataclass(cls)] *)
Definition is_dataclass (cls : PyType) : bool :=
  match cls with
  | dataclass _ _ => true
  | _ => false
  end.

(** [get_origin(cls)] *)
Definition get_origin (cls : PyType) : option Origin :=
  match cls with
  | generic_alias origin _ => Some (origin_class origin)
  | special_alias _ _ => Some special_form
  | _ => None
  end.

(** [get_args(cls)] *)
Definition get_args (cls : PyType) : list PyType :=
  match cls with
  | generic_alias _ args => args
  | special_alias _ args => args
  | _ => []
  end.

(** [issubclass(origin, abc)], for [abc] one of [Sequence] and [Mapping]:
    [TypeError] ("issubclass() arg 1 must be a class") when the origin is no
    class. *)
Definition issubclass (origin : Origin) (abc : PyClass -> bool)
  : result bool :=
  match origin with
  | origin_class c => Ok (abc c)
  | special_form => Raise TypeError
  end.

Definition builtin_name (b : builtin) : string :=
  match b with
  | py_NoneType => "NoneType"
  | py_bool => "bool"
  | py_int => "int"
  | py_float => "float"
  | py_str => "str"
  | py_bytes => "bytes"
  end.

(** Induction over types that reaches the field types of a dataclass and
    the arguments of a generic. *)
Section PyType_induction.
Variable P : PyType -> Prop.
Hypothesis Hbuiltin : forall b, P (builtin_class b).
Hypothesis Hdataclass :
  forall n fs, Forall (fun f => P (field_type f)) fs -> P (dataclass n fs).
Hypothesis Halias : forall o args, Forall P args -> P (generic_alias o args).
Hypothesis Hother : forall c, P (other_class c).
Hypothesis Hspecial :
  forall p args, Forall P args -> P (special_alias p args).

Fixpoint PyType_ind' (cls : PyType) : P cls :=
  match cls with
  | builtin_class b => Hbuiltin b
  | dataclass n fs =>
      Hdataclass n fs
        ((fix go (l : list Field) : Forall (fun f => P (field_type f)) l :=
            match l with
            | [] => Forall_nil _
            | f :: l' =>
                Forall_cons f
                  match f return P (field_type f) with
                  | mkField _ t _ => PyType_ind' t
                  end (go l')
            end) fs)
  | generic_alias o args =>
      Halias o args
        ((fix go (l : list PyType) : Forall P l :=
            match l with
            | [] => Forall_nil _
            | a :: l' => Forall_cons a (PyType_ind' a) (go l')
            end) args)
  | other_class c => Hother c
  | special_alias p args =>
      Hspecial p args
        ((fix go (l : list PyType) : Forall P l :=
            match l with
            | [] => Forall_nil _
            | a :: l' => Forall_cons a (PyType_ind' a) (go l')
            end) args)
  end.
End PyType_induction.

(** [str(cls)] and, for the arguments of a generic, the shorter form the
    typing module prints. *)
Fixpoint type_repr (short : bool) (cls : PyType) : string :=
  let class_repr n := if short then n else "<class '" ++ n ++ "'>" in
  match cls with
  | builtin_class b => class_repr (builtin_name b)
  | dataclass n _ => class_repr n
  | other_class c => class_repr (class_name c)
  | special_alias printed _ => printed
  | generic_alias origin args =>
      class_name origin ++ "[" ++
      (fix join (l : list PyType) : string :=
         match l with
         | [] => ""
         | [a] => type_repr true a
         | a :: l' => type_repr true a ++ ", " ++ join l'
         end) args ++ "]"
  end.

Definition type_str (cls : PyType) : string := type_repr false cls.

(** [derive_arrow_marshaller] and [derive_arrow_marshaller_for_field].  The
    dataclass case runs [StructArrowMarshaller.__init__]: one marshaller per
    field, collected in a dict keyed by field name.  On a parameterised
    special form [get_origin(cls)] is not [None] and
    [issubclass(get_origin(cls), Sequence)] raises [TypeError], the origin
    being no class. *)
Fixpoint derive_arrow_marshaller (cls : PyType) {struct cls}
  : result ArrowMarshaller :=
  match cls with
  | builtin_class py_NoneType => Ok fa.null
  | builtin_class py_bool => Ok fa.boolean
  | builtin_class py_int => Ok fa.int64
  | builtin_class py_float => Ok fa.float64
  | builtin_class py_str => Ok fa.string
  | builtin_class py_bytes => Ok fa.binary
  | dataclass name fs =>
      ms <- mapM (fun f =>
                    m <- derive_arrow_marshaller_for_field f ;;
                    Ok (field_name f, m)) fs ;;
      Ok (StructArrowMarshaller name (sdict_of ms))
  | generic_alias origin args =>
      if issubclass_Sequence origin then
        match args with
        | [] => Raise IndexError
        | a0 :: _ =>
            elem <- derive_arrow_marshaller a0 ;;
            Ok (ListArrowMarshaller elem)
        end
      else if issubclass_Mapping origin then
        match args with
        | [] => Raise IndexError
        | a0 :: rest =>
            key <- derive_arrow_marshaller a0 ;;
            match rest with
            | [] => Raise IndexError
            | a1 :: _ =>
                value <- derive_arrow_marshaller a1 ;;
                Ok (MapArrowMarshaller key value)
            end
        end
      else
        Raise (NotImplementedError
                 ("Cannot derive ArrowMarshaller for " ++ type_str cls))
  | other_class _ =>
      Raise (NotImplementedError
               ("Cannot derive ArrowMarshaller for " ++ type_str cls))
  | special_alias _ _ => Raise TypeError
  end
with derive_arrow_marshaller_for_field (f : Field) {struct f}
  : result ArrowMarshaller :=
  match f with
  | mkField _ type metadata =>
      match metadata with
      | Some m => Ok m
      | None => derive_arrow_marshaller type
      end
  end.

(** [StructArrowMarshaller(cls)], the constructor call. *)
Definition StructArrowMarshaller_init (cls : PyType)
  : result ArrowMarshaller :=
  _ <- assert (is_dataclass cls) ;;
  match cls with
  | dataclass name fs =>
      ms <- mapM (fun f =>
                    m <- derive_arrow_marshaller_for_field f ;;
                    Ok (field_name f, m)) fs ;;
      Ok (StructArrowMarshaller name (sdict_of ms))
  | _ => Raise AssertionError
  end.

(** ** The test module's types and values *)

Definition list_class := mkClass "list" true false.
Definition dict_class := mkClass "dict" false true.
Definition set_class := mkClass "set" false false.
Definition tuple_class := mkClass "tuple" true false.

Definition Person : PyType :=
  dataclass "Person"
    [mkField "name" (builtin_class py_str) None;
     mkField "age" (builtin_class py_int) None;
     mkField "gender" (builtin_class py_bool) None].

Definition person (name : string) (age : Z) (gender : bool) : PyVal :=
  PyObject "Person"
    [("name", PyStr name); ("age", PyInt age); ("gender", PyBool gender)].

(** ** Named parts of the marshallers *)

(** [self.fields[f].from_arrow(v)] *)
Definition field_from_arrow (fields : list (string * ArrowMarshaller))
    (f v : PyVal) : result PyVal :=
  match f with
  | PyStr n =>
      match sdict_get fields n with
      | Some m => from_arrow m v
      | None => Raise (KeyError f)
      end
  | _ => Raise (KeyError f)
  end.

(** The two branches of [MapArrowMarshaller.from_arrow]: the dict built
    from the map scalar's own iteration, and the dict built by indexing the
    scalar and decoding each key and item with the child marshallers. *)
Definition map_from_arrow_native (arrow : PyVal) : result PyVal :=
  ps <- py_iter arrow ;;
  d <- dict_for_each unpack2 ps ;;
  Ok (PyDict d).

Definition map_from_arrow_indexed (key value : ArrowMarshaller)
    (arrow : PyVal) : result PyVal :=
  n <- py_len arrow ;;
  d <- dict_comp
         (fun i =>
            e <- py_getitem arrow i ;;
            e0 <- py_getitem e 0 ;;
            k <- from_arrow key e0 ;;
            e' <- py_getitem arrow i ;;
            e1 <- py_getitem e' 1 ;;
            v <- from_arrow value e1 ;;
            Ok (k, v))
         (seq 0 n) [] ;;
  Ok (PyDict d).

(** The marshaller derived for the test module's [Person]. *)
Definition PersonMarshaller : ArrowMarshaller :=
  StructArrowMarshaller "Person"
    [("name", fa.string); ("age", fa.int64); ("gender", fa.boolean)].

(** The basic marshallers inside a marshaller tree. *)
Fixpoint basics (m : ArrowMarshaller) : list ArrowMarshaller :=
  match m with
  | BasicTypeArrowMarshaller _ _ => [m]
  | ListArrowMarshaller elem => basics elem
  | MapArrowMarshaller key value => (basics key ++ basics value)%list
  | StructArrowMarshaller _ fields =>
      flat_map (fun nm => basics (snd nm)) fields
  end.

(** No field of the type, at any depth, carries an ['arrow_marshaller']
    override. *)
Fixpoint no_override (cls : PyType) : Prop :=
  match cls with
  | builtin_class _ | other_class _ => True
  | dataclass _ fs =>
      (fix all (fs : list Field) : Prop :=
         match fs with
         | [] => True
         | mkField _ t md :: fs' => md = None /\ no_override t /\ all fs'
         end) fs
  | generic_alias _ args | special_alias _ args =>
      (fix all (l : list PyType) : Prop :=
         match l with
         | [] => True
         | a :: l' => no_override a /\ all l'
         end) args
  end.

(** The type is matched by none of the branches of
    [derive_arrow_marshaller]: it is none of the six builtin classes, not a
    dataclass, and has no origin or an origin that is a class and a subclass
    neither of [Sequence] nor of [Mapping]. *)
Definition unmatched (cls : PyType) : Prop :=
  (forall b, cls <> builtin_class b) /\
  is_dataclass cls = false /\
  match get_origin cls with
  | None => True
  | Some origin =>
      issubclass origin issubclass_Sequence = Ok false /\
      issubclass origin issubclass_Mapping = Ok false
  end.

(** The types derivation may look at while it derives [cls]: the type
    itself, the types of the fields of a dataclass that carry no override,
    the first argument of a generic over a sequence, the first two arguments
    of a generic over a mapping, and what it looks at in those. *)
Fixpoint derivation_reads (cls : PyType) : list PyType :=
  cls ::
  match cls with
  | dataclass _ fs =>
      (fix go (fs : list Field) : list PyType :=
         match fs with
         | [] => []
         | mkField _ t None :: fs' => (derivation_reads t ++ go fs')%list
         | mkField _ _ (Some _) :: fs' => go fs'
         end) fs
  | generic_alias origin args =>
      if issubclass_Sequence origin then
        match args with
        | a0 :: _ => derivation_reads a0
        | [] => []
        end
      else if issubclass_Mapping origin then
        match args with
        | a0 :: a1 :: _ => (derivation_reads a0 ++ derivation_reads a1)%list
        | [a0] => derivation_reads a0
        | [] => []
        end
      else []
  | _ => []
  end.

(** The basic marshallers that derivation itself returns, and the narrower
    ones that the module also defines. *)
Definition derived_basics : list ArrowMarshaller :=
  [fa.null; fa.boolean; fa.int64; fa.float64; fa.string; fa.binary].

Definition narrow_basics : list ArrowMarshaller :=
  [fa.int8; fa.int16; fa.int32; fa.uint8; fa.uint16; fa.uint32; fa.uint64;
   fa.float16; fa.float32].

(** ** Values that conform to a marshaller *)

(** A Python value of the primitive kind a data type stores: an integer
    within the bounds of an integer type, a float that the float type
    represents exactly. *)
Definition conforms_primitive (T : DataType) (v : PyVal) : Prop :=
  match T, v with
  | pa_null, PyNone => True
  | pa_bool_, PyBool _ => True
  | pa_string, PyStr _ => True
  | pa_binary, PyBytes _ => True
  | _, PyInt z =>
      match int_bounds T with
      | Some (lo, hi) => lo <= z <= hi
      | None => False
      end
  | _, PyFloat f =>
      match float_format T with
      | Some (prec, emax) => narrow prec emax f = f
      | None => False
      end
  | _, _ => False
  end.

(** The items of a dict: hashable keys, no two of them equal, none of them
    [None] (a columnar map has no null key). *)
Fixpoint dict_wf (d : list (PyVal * PyVal)) : Prop :=
  match d with
  | [] => True
  | (k, _) :: d' =>
      hashable k = true /\ k <> PyNone /\
      Forall (fun kv => key_eq k (fst kv) = false) d' /\ dict_wf d'
  end.

(** The value has the shape the marshaller is for: a primitive for a basic
    marshaller, a list of conforming elements, a dict of conforming keys and
    values, an instance of the dataclass with a conforming value for each
    declared field, in declaration order. *)
Fixpoint conforms (m : ArrowMarshaller) (v : PyVal) {struct m} : Prop :=
  match m with
  | BasicTypeArrowMarshaller _ T => conforms_primitive T v
  | ListArrowMarshaller elem =>
      match v with
      | PyList l => Forall (conforms elem) l
      | _ => False
      end
  | MapArrowMarshaller key value =>
      match v with
      | PyDict d =>
          dict_wf d /\ Forall (fun kv => conforms key (fst kv)) d /\
          Forall (fun kv => conforms value (snd kv)) d
      | _ => False
      end
  | StructArrowMarshaller cls fields =>
      match v with
      | PyObject c d =>
          c = cls /\
          (fix go (fs : list (string * ArrowMarshaller))
               (d : list (string * PyVal)) : Prop :=
             match fs, d with
             | [], [] => True
             | (n, m') :: fs', (n', v') :: d' =>
                 n = n' /\ conforms m' v' /\ go fs' d'
             | _, _ => False
             end) fields d
      | _ => False
      end
  end.

(** ** The dual-path encoding of a map that the specification describes

    With two basic children the mapping goes to the engine as it is;
    otherwise each entry is encoded with the key and value marshallers and
    the engine packs the resulting pairs of scalars. *)
Definition map_to_arrow_dual_path (key value : ArrowMarshaller) (py : PyVal)
  : result Scalar :=
  let T := pa_map_ (arrow_dtype key) (arrow_dtype value) in
  if is_basic key && is_basic value then pa_scalar py T
  else
    items <- py_items py ;;
    es <- for_each
            (fun kv =>
               k <- to_arrow key (fst kv) ;;
               v <- to_arrow value (snd kv) ;;
               Ok (PyTuple [PyArrowScalar k; PyArrowScalar v]))
            items ;;
    pa_scalar (PyList es) T.

(** A dataclass with a field that is itself a dataclass. *)
Definition Team : PyType :=
  dataclass "Team"
    [mkField "title" (builtin_class py_str) None;
     mkField "lead" Person None].

Definition TeamMarshaller : ArrowMarshaller :=
  StructArrowMarshaller "Team"
    [("title", fa.string); ("lead", PersonMarshaller)].

(** ** Shapes the encoders handle

    [plain]: no dataclass anywhere in the tree, so that the engine alone can
    encode a conforming value.  [flat]: no dataclass below a map or below
    another dataclass; the fields of a struct marshaller have distinct names
    (they are the keys of a dict). *)
Fixpoint plain (m : ArrowMarshaller) : Prop :=
  match m with
  | BasicTypeArrowMarshaller _ _ => True
  | ListArrowMarshaller elem => plain elem
  | MapArrowMarshaller key value => plain key /\ plain value
  | StructArrowMarshaller _ _ => False
  end.

Fixpoint flat (m : ArrowMarshaller) : Prop :=
  match m with
  | BasicTypeArrowMarshaller _ _ => True
  | ListArrowMarshaller elem => flat elem
  | MapArrowMarshaller key value => plain key /\ plain value
  | StructArrowMarshaller _ fields =>
      NoDup (map fst fields) /\ Forall (fun nm => plain (snd nm)) fields
  end.

(** ** Types that derivation accepts *)

(** The types on which [derive_arrow_marshaller] returns: a builtin class;
    a dataclass each of whose fields carries an override or has such a
    type; a generic whose origin is a sequence and whose first argument is
    such a type; a generic whose origin is a mapping (and no sequence) and
    whose first two arguments are such types. *)
Fixpoint derivable (cls : PyType) : Prop :=
  match cls with
  | builtin_class _ => True
  | other_class _ | special_alias _ _ => False
  | dataclass _ fs =>
      (fix all (fs : list Field) : Prop :=
         match fs with
         | [] => True
         | mkField _ t md :: fs' => (md <> None \/ derivable t) /\ all fs'
         end) fs
  | generic_alias origin args =>
      if issubclass_Sequence origin then
        match args with
        | a0 :: _ => derivable a0
        | [] => False
        end
      else if issubclass_Mapping origin then
        match args with
        | a0 :: a1 :: _ => derivable a0 /\ derivable a1
        | _ => False
        end
      else False
  end.

(** Types without a dataclass anywhere, and types without a dataclass below
    a mapping or below another dataclass (and without overrides, the field
    names of a dataclass being distinct). *)
Fixpoint plain_type (cls : PyType) : Prop :=
  match cls with
  | builtin_class _ => True
  | other_class _ | dataclass _ _ | special_alias _ _ => False
  | generic_alias origin args =>
      if issubclass_Sequence origin then
        match args with
        | a0 :: _ => plain_type a0
        | [] => False
        end
      else if issubclass_Mapping origin then
        match args with
        | a0 :: a1 :: _ => plain_type a0 /\ plain_type a1
        | _ => False
        end
      else False
  end.

Fixpoint flat_type (cls : PyType) : Prop :=
  match cls with
  | builtin_class _ => True
  | other_class _ | special_alias _ _ => False
  | dataclass _ fs =>
      NoDup (map field_name fs) /\
      Forall (fun f => field_metadata f = None /\ plain_type (field_type f))
        fs
  | generic_alias origin args =>
      if issubclass_Sequence origin then
        match args with
        | a0 :: _ => flat_type a0
        | [] => False
        end
      else if issubclass_Mapping origin then
        match args with
        | a0 :: a1 :: _ => plain_type a0 /\ plain_type a1
        | _ => False
        end
      else False
  end.

(** The exceptions of the engine's converter. *)
Definition conversion_error (e : Exception) : Prop :=
  e = ArrowInvalid \/ e = ArrowTypeError \/ e = OverflowError.

(** The exceptions of encoding: the converter's, [TypeError] from iterating
    a value that is not iterable, [AttributeError] from a value without
    [__dict__], and [ValueError] from [as_py()] while a map scalar is
    iterated. *)
Definition encode_error (e : Exception) : Prop :=
  conversion_error e \/ e = TypeError \/ e = AttributeError \/ e = ValueError.

(** * Properties *)

Local Open Scope list_scope.

(** ** The error monad *)

Lemma bind_Ok_inv {A B} (c : result A) (k : A -> result B) (b : B) :
  bind c k = Ok b -> exists a, c = Ok a /\ k a = Ok b.
Proof. destruct c as [a|e]; simpl; intros H; [eauto | discriminate]. Qed.

Lemma bind_Raise_inv {A B} (c : result A) (k : A -> result B) (e : Exception) :
  bind c k = Raise e ->
  c = Raise e \/ exists a, c = Ok a /\ k a = Raise e.
Proof.
  destruct c as [a|e']; simpl; intros H; [right; eauto|].
  injection H as ->. now left.
Qed.

Lemma mapM_Raise_inv {A B} (f : A -> result B) (l : list A) (e : Exception) :
  mapM f l = Raise e -> exists x, In x l /\ f x = Raise e.
Proof.
  induction l as [|x l IH]; simpl; [discriminate|]. intros H.
  apply bind_Raise_inv in H as [H|(y & Hy & H)].
  - exists x. split; [now left | assumption].
  - apply bind_Raise_inv in H as [H|(ys & _ & H)]; [|discriminate].
    destruct (IH H) as (z & Hz & Hfz). exists z. split; [now right | assumption].
Qed.

Lemma mapM_Ok_exists {A B} (f : A -> result B) (l : list A) :
  (exists r, mapM f l = Ok r) <-> Forall (fun x => exists y, f x = Ok y) l.
Proof.
  induction l as [|x l IH]; simpl.
  - split; [constructor | exists []; reflexivity].
  - split.
    + intros [r H]. apply bind_Ok_inv in H as (y & Hy & H).
      apply bind_Ok_inv in H as (ys & Hys & _).
      constructor; [eauto | apply IH; eauto].
    + intros H. inversion H as [|? ? [y Hy] Hl]; subst.
      apply IH in Hl as [ys Hys]. exists (y :: ys).
      now rewrite Hy, Hys.
Qed.

Lemma mapM_ext {A B} (f g : A -> result B) (l : list A) :
  (forall x, In x l -> f x = g x) -> mapM f l = mapM g l.
Proof.
  induction l as [|x l IH]; intros H; simpl; [reflexivity|].
  rewrite (H x (or_introl eq_refl)), IH; [reflexivity|].
  intros y Hy. apply H. now right.
Qed.

Lemma mapM_Ok_Forall2 {A B} (f : A -> result B) (l : list A) (r : list B) :
  mapM f l = Ok r <-> Forall2 (fun x y => f x = Ok y) l r.
Proof.
  revert r. induction l as [|x l IH]; intros r; simpl.
  - split; intros H; [injection H as <-; constructor | inversion H; reflexivity].
  - split.
    + intros H. apply bind_Ok_inv in H as (y & Hy & H).
      apply bind_Ok_inv in H as (ys & Hys & H). injection H as <-.
      constructor; [assumption | now apply IH].
    + intros H. inversion H as [|? y ? ys Hy Hys]; subst.
      rewrite Hy. simpl. apply IH in Hys. rewrite Hys. reflexivity.
Qed.

Lemma mapM_map {A B C} (g : A -> B) (f : B -> result C) (l : list A) :
  mapM f (map g l) = mapM (fun x => f (g x)) l.
Proof. induction l as [|x l IH]; simpl; [reflexivity | now rewrite IH]. Qed.

Lemma mapM_Ok_id {A B} (f : A -> result B) (g : A -> B) (l : list A) :
  Forall (fun x => f x = Ok (g x)) l -> mapM f l = Ok (map g l).
Proof.
  induction 1 as [|x l Hx _ IH]; simpl; [reflexivity|].
  now rewrite Hx, IH.
Qed.

(** ** Equality of data types *)

Lemma DataType_eqb_eq (a b : DataType) : DataType_eqb a b = true <-> a = b.
Proof.
  revert b. induction a using DataType_ind'; intros b;
    try (destruct b; simpl; split; intros H;
         solve [reflexivity | discriminate]).
  - destruct b; simpl; try (split; intros H; discriminate).
    rewrite IHa. split; intros H; [now subst | now injection H].
  - destruct b; simpl; try (split; intros H; discriminate).
    rewrite andb_true_iff, IHa1, IHa2.
    split; [intros [-> ->]; reflexivity | intros H; now injection H].
  - destruct b as [| | | | | | | | | | | | | | | | |gs]; simpl;
      try (split; intros E; discriminate).
    revert gs. induction H as [|[n t] fs Ht _ IH]; intros [|[n' t'] gs].
    + split; reflexivity.
    + split; intros E; discriminate.
    + split; intros E; discriminate.
    + rewrite !andb_true_iff, String.eqb_eq. simpl in Ht. rewrite Ht, IH.
      split; [intros [[-> ->] E]; now injection E as -> | intros E; now injection E as -> -> ->].
Qed.

Lemma DataType_eqb_refl (a : DataType) : DataType_eqb a a = true.
Proof. now apply DataType_eqb_eq. Qed.

(** ** The engine keeps the requested data type *)

Ltac inv_bind H :=
  let x := fresh "x" in
  let Hx := fresh "Hx" in
  apply bind_Ok_inv in H as (x & Hx & H).

Lemma convert_primitive_type (T : DataType) (v : PyVal) (s : Scalar) :
  convert_primitive T v = Ok s -> type_of s = T.
Proof.
  unfold convert_primitive.
  destruct T; simpl; try discriminate;
    destruct v; try discriminate;
    repeat match goal with
           | |- context [if ?c then _ else _] => destruct c
           end;
    try discriminate; intros H; injection H as <-; reflexivity.
Qed.

Lemma convert_type (T : DataType) :
  forall (v : PyVal) (s : Scalar), convert T v = Ok s -> type_of s = T.
Proof.
  assert (Hs : forall T s s', 
             (if DataType_eqb (type_of s) T then Ok s else Raise ArrowInvalid)
             = Ok s' -> type_of s' = T).
  { intros T0 s s' H. destruct (DataType_eqb (type_of s) T0) eqn:E;
      [|discriminate]. injection H as <-. now apply DataType_eqb_eq. }
  induction T using DataType_ind'; intros v s;
    try (destruct v; cbn [convert]; intros H;
         solve [ injection H as <-; reflexivity
               | eapply Hs; eassumption
               | eapply (convert_primitive_type _ _ _ H) ]).
  - (* list *)
    destruct v; simpl; intros H;
      try solve [ injection H as <-; reflexivity | eapply Hs; eassumption
                | discriminate ];
      inv_bind H; injection H as <-; reflexivity.
  - (* map *)
    destruct v; simpl; intros H;
      try solve [ injection H as <-; reflexivity | eapply Hs; eassumption
                | discriminate ];
      inv_bind H; inv_bind H; injection H as <-; reflexivity.
  - (* struct *)
    destruct v; simpl; intros E;
      try solve [ injection E as <-; reflexivity | eapply Hs; eassumption
                | discriminate ].
    inv_bind E. injection E as <-. simpl. f_equal.
    revert x Hx. induction H as [|[n t] fs Ht _ IH]; intros its Hits.
    + injection Hits as <-. reflexivity.
    + inv_bind Hits. inv_bind Hits. injection Hits as <-. simpl.
      f_equal; [f_equal; eapply Ht; eassumption | now apply IH].
Qed.

Lemma pa_scalar_type (py : PyVal) (T : DataType) (s : Scalar) :
  pa_scalar py T = Ok s -> type_of s = T.
Proof. apply convert_type. Qed.

Lemma pa_array_type (py : list PyVal) (T : DataType) (a : Array) :
  pa_array py T = Ok a -> array_type a = T.
Proof.
  unfold pa_array. intros H. inv_bind H. injection H as <-. reflexivity.
Qed.

(** A scalar of the requested type is taken as it is. *)
Lemma convert_scalar (T : DataType) (s : Scalar) :
  type_of s = T -> convert T (PyArrowScalar s) = Ok s.
Proof.
  intros <-. destruct (type_of s) eqn:E; cbn [convert]; rewrite E;
    now rewrite DataType_eqb_refl.
Qed.

Lemma pa_array_scalars (T : DataType) (l : list Scalar) :
  Forall (fun s => type_of s = T) l ->
  pa_array (map PyArrowScalar l) T = Ok (mkArray T l).
Proof.
  intros H. unfold pa_array. rewrite mapM_map.
  rewrite (mapM_Ok_id _ (fun s => s)).
  - simpl. now rewrite map_id.
  - revert H. apply Forall_impl. intros s. apply convert_scalar.
Qed.

(** ** Dtype stability of the marshallers *)

Lemma to_arrow_type (m : ArrowMarshaller) (py : PyVal) (s : Scalar) :
  to_arrow m py = Ok s -> type_of s = arrow_dtype m.
Proof.
  destruct m as [t T|e|k v|c fs]; cbn [to_arrow]; intros H.
  - now apply pa_scalar_type in H.
  - inv_bind H. inv_bind H. injection H as <-.
    destruct (is_basic e).
    + now apply pa_scalar_type in Hx.
    + inv_bind Hx. inv_bind Hx. now apply pa_scalar_type in Hx.
  - inv_bind H. inv_bind H. injection H as <-. now apply pa_scalar_type in Hx.
  - inv_bind H. inv_bind H. inv_bind H. injection H as <-.
    now apply pa_scalar_type in Hx0.
Qed.

Lemma mapM_to_arrow_types (m : ArrowMarshaller) (py : list PyVal)
    (l : list Scalar) :
  mapM (to_arrow m) py = Ok l ->
  Forall (fun s => type_of s = arrow_dtype m) l.
Proof.
  intros H. apply mapM_Ok_Forall2 in H.
  induction H as [|x s py l Hx _ IH]; constructor;
    [eapply to_arrow_type; eassumption | assumption].
Qed.

Lemma to_arrow_array_type (m : ArrowMarshaller) (py : list PyVal) (a : Array) :
  to_arrow_array m py = Ok a -> array_type a = arrow_dtype m.
Proof.
  assert (Heach : forall a,
             (l <- mapM (to_arrow m) py ;;
              pa_array (map PyArrowScalar l) (arrow_dtype m)) = Ok a ->
             array_type a = arrow_dtype m).
  { intros a0 H. inv_bind H. now apply pa_array_type in H. }
  destruct m as [t T|e|k v|c fs]; unfold to_arrow_array; intros H.
  - now apply pa_array_type in H.
  - inv_bind H. inv_bind H. injection H as <-.
    destruct (is_basic e); [now apply pa_array_type in Hx | now apply Heach].
  - inv_bind H. inv_bind H. injection H as <-.
    destruct (is_basic k && is_basic v);
      [now apply pa_array_type in Hx | now apply Heach].
  - inv_bind H. inv_bind H. injection H as <-. now apply Heach.
Qed.

(** C9 (dtype stability): whenever [to_arrow] returns a scalar its data type
    is the marshaller's [arrow_dtype], and whenever [to_arrow_array] returns
    an array its data type is the marshaller's [arrow_dtype]; this holds for
    every marshaller and every input. *)
Theorem dtype_stability (m : ArrowMarshaller) (py : PyVal) (pys : list PyVal)
    (s : Scalar) (a : Array) :
  (to_arrow m py = Ok s -> type_of s = arrow_dtype m) /\
  (to_arrow_array m pys = Ok a -> array_type a = arrow_dtype m).
Proof.
  split; [apply to_arrow_type | apply to_arrow_array_type].
Qed.

Lemma dtype_stability_witness :
  type_of (IntScalar pa_int8 (-5)) = arrow_dtype fa.int8 /\
  array_type
    (mkArray (arrow_dtype PersonMarshaller)
       [StructScalar [("name", StringScalar "Ada");
                      ("age", IntScalar pa_int64 36);
                      ("gender", BooleanScalar true)]])
  = arrow_dtype PersonMarshaller.
Proof.
  split.
  - apply (proj1 (dtype_stability fa.int8 (PyInt (-5)) []
                    (IntScalar pa_int8 (-5)) (mkArray pa_null []))).
    reflexivity.
  - apply (proj2 (dtype_stability PersonMarshaller PyNone
                    [person "Ada" 36 true] (Null pa_null) _)).
    reflexivity.
Defined.

(** ** The bulk path against the element-wise path *)

(** With a basic element marshaller a list is encoded by the engine alone. *)
Lemma to_arrow_list_basic (e : ArrowMarshaller) (py : PyVal) :
  is_basic e = true ->
  to_arrow (ListArrowMarshaller e) py
  = convert (pa_list_ (arrow_dtype e)) py.
Proof.
  intros He. cbn [to_arrow]. rewrite He. unfold pa_scalar. cbn [arrow_dtype].
  destruct (convert (pa_list_ (arrow_dtype e)) py) as [s|x] eqn:E;
    [|reflexivity].
  simpl. apply convert_type in E. rewrite E. reflexivity.
Qed.

Lemma to_arrow_map (k v : ArrowMarshaller) (py : PyVal) :
  to_arrow (MapArrowMarshaller k v) py
  = convert (pa_map_ (arrow_dtype k) (arrow_dtype v)) py.
Proof.
  cbn [to_arrow]. unfold pa_scalar. cbn [arrow_dtype].
  destruct (convert _ py) as [s|x] eqn:E; [|reflexivity].
  simpl. apply convert_type in E. rewrite E. reflexivity.
Qed.

Lemma encode_each_packs (m : ArrowMarshaller) (py : list PyVal) :
  (l <- mapM (to_arrow m) py ;;
   pa_array (map PyArrowScalar l) (arrow_dtype m))
  = (l <- mapM (to_arrow m) py ;; Ok (mkArray (arrow_dtype m) l)).
Proof.
  destruct (mapM (to_arrow m) py) as [l|x] eqn:E; [|reflexivity].
  simpl. apply pa_array_scalars. eapply mapM_to_arrow_types. eassumption.
Qed.

(** C3 (scalar/array consistency): for every marshaller and every sequence,
    [to_arrow_array] — through the engine's bulk constructor or not —
    returns the array of the marshaller's data type whose elements are
    [[to_arrow(x) for x in py]], and raises whenever that comprehension
    raises, with the same exception. *)
Theorem to_arrow_array_elementwise (m : ArrowMarshaller) (py : list PyVal) :
  to_arrow_array m py
  = (l <- mapM (to_arrow m) py ;; Ok (mkArray (arrow_dtype m) l)).
Proof.
  assert (Hpack : forall (c : result Array) (test : DataType -> bool),
             test (arrow_dtype m) = true ->
             c = (l <- mapM (to_arrow m) py ;; Ok (mkArray (arrow_dtype m) l)) ->
             (a <- c ;; _ <- assert (test (array_type a)) ;; Ok a)
             = (l <- mapM (to_arrow m) py ;; Ok (mkArray (arrow_dtype m) l))).
  { intros c test Ht ->. destruct (mapM (to_arrow m) py); simpl;
      [now rewrite Ht | reflexivity]. }
  destruct m as [t T|e|k v|c fs]; unfold to_arrow_array.
  - reflexivity.
  - apply Hpack; [reflexivity|].
    destruct (is_basic e) eqn:He; [|apply encode_each_packs].
    unfold pa_array. f_equal. apply mapM_ext. intros x _.
    symmetry. now apply to_arrow_list_basic.
  - apply Hpack; [reflexivity|].
    destruct (is_basic k && is_basic v); [|apply encode_each_packs].
    unfold pa_array. f_equal. apply mapM_ext. intros x _.
    symmetry. apply to_arrow_map.
  - apply Hpack; [reflexivity|].
    apply encode_each_packs.
Qed.

(** ** Decoding a struct *)

Lemma dict_comp_ext {A} (f g : A -> result (PyVal * PyVal)) (l : list A) :
  (forall x, In x l -> f x = g x) ->
  forall d, dict_comp f l d = dict_comp g l d.
Proof.
  induction l as [|x l IH]; intros H d; simpl; [reflexivity|].
  rewrite (H x (or_introl eq_refl)).
  destruct (g x) as [kv|e]; simpl; [|reflexivity].
  destruct (dict_setitem d (fst kv) (snd kv)); simpl; [|reflexivity].
  apply IH. intros y Hy. apply H. now right.
Qed.

Lemma from_arrow_struct (cls : string) (fields : list (string * ArrowMarshaller))
    (arrow : PyVal) :
  from_arrow (StructArrowMarshaller cls fields) arrow
  = (items <- py_items arrow ;;
     kwargs <- dict_for_each
                 (fun fv => x <- field_from_arrow fields (fst fv) (snd fv) ;;
                            Ok (fst fv, x)) items ;;
     dataclass_new cls (map fst fields) kwargs).
Proof.
  cbn [from_arrow]. destruct (py_items arrow) as [items|e]; [|reflexivity].
  cbn [bind]. f_equal. apply dict_comp_ext.
  intros [[f v]|e] _; [|reflexivity]. cbn [bind fst snd].
  f_equal.
  destruct f; cbn [field_from_arrow];
    (induction fields as [|[n m] fs IH];
     [reflexivity | simpl; try destruct (String.eqb n s); auto]).
Qed.

Lemma sdict_get_In {A} (d : list (string * A)) (n : string) (x : A) :
  NoDup (map fst d) -> In (n, x) d -> sdict_get d n = Some x.
Proof.
  induction d as [|[k y] d IH]; intros Hnd Hin; [contradiction|].
  simpl in *. inversion Hnd as [|? ? Hk Hnd']; subst.
  destruct Hin as [E|Hin].
  - injection E as -> ->. now rewrite String.eqb_refl.
  - destruct (String.eqb k n) eqn:E.
    + apply String.eqb_eq in E. subst. exfalso. apply Hk.
      apply in_map_iff. now exists (n, x).
    + now apply IH.
Qed.

Lemma dict_update_fresh (d : list (PyVal * PyVal)) (k v : PyVal) :
  (forall k' y, In (k', y) d -> key_eq k' k = false) ->
  dict_update d k v = d ++ [(k, v)].
Proof.
  induction d as [|[k' y] d IH]; intros H; simpl; [reflexivity|].
  rewrite (H k' y (or_introl eq_refl)). f_equal. apply IH.
  intros k'' y' Hin. apply (H k'' y'). now right.
Qed.

(** The keyword dictionary built from items with distinct names. *)
Lemma dict_comp_fields (f : string * Scalar -> result (PyVal * PyVal))
    (g : string -> PyVal) (its : list (string * Scalar)) :
  NoDup (map fst its) ->
  (forall nv, In nv its -> f nv = Ok (PyStr (fst nv), g (fst nv))) ->
  forall d : list (string * PyVal),
    (forall n, In n (map fst d) -> ~ In n (map fst its)) ->
    dict_comp f its (map (fun nx => (PyStr (fst nx), snd nx)) d)
    = Ok (map (fun nx => (PyStr (fst nx), snd nx))
            (d ++ map (fun nv => (fst nv, g (fst nv))) its)).
Proof.
  induction its as [|[n s] its IH]; intros Hnd Hf d Hd; simpl.
  - now rewrite app_nil_r.
  - rewrite (Hf (n, s) (or_introl eq_refl)). cbn [bind fst snd].
    unfold dict_setitem. cbn [hashable bind].
    rewrite dict_update_fresh.
    + inversion Hnd as [|? ? Hn Hnd']; subst.
      replace (map (fun nx => (PyStr (fst nx), snd nx)) d ++ [(PyStr n, g n)])
        with (map (fun nx : string * PyVal => (PyStr (fst nx), snd nx))
                (d ++ [(n, g n)]))
        by (rewrite map_app; reflexivity).
      rewrite IH; [| assumption | intros nv Hin; apply Hf; now right |].
      * rewrite <- app_assoc. reflexivity.
      * intros k Hk. rewrite map_app, in_app_iff in Hk. simpl in Hk.
        destruct Hk as [Hk|[<-|[]]]; [|assumption].
        intros Hin. apply (Hd k Hk). now right.
    + intros k' y Hin. apply in_map_iff in Hin as ([k x] & E & Hin).
      injection E as <- <-. simpl.
      apply String.eqb_neq. intros ->.
      apply (Hd n); [apply in_map_iff; now exists (n, x) | now left].
Qed.

Lemma dict_comp_map {A B} (h : A -> B) (f : B -> result (PyVal * PyVal))
    (l : list A) :
  forall d, dict_comp f (map h l) d = dict_comp (fun x => f (h x)) l d.
Proof.
  induction l as [|x l IH]; intros d; simpl; [reflexivity|].
  destruct (f (h x)) as [kv|e]; simpl; [|reflexivity].
  destruct (dict_setitem d (fst kv) (snd kv)); simpl; [apply IH | reflexivity].
Qed.

Lemma dict_get_str (d : list (string * PyVal)) (n : string) :
  dict_get (map (fun nx => (PyStr (fst nx), snd nx)) d) (PyStr n)
  = sdict_get d n.
Proof.
  induction d as [|[k x] d IH]; simpl; [reflexivity|].
  destruct (String.eqb k n); [reflexivity | apply IH].
Qed.

(** The call of the dataclass on a keyword dictionary that gives every
    declared field once. *)
Lemma dataclass_new_fields (cls : string) (names : list string)
    (kw : list (string * PyVal)) (g : string -> PyVal) :
  (forall n, In n (map fst kw) -> In n names) ->
  (forall n, In n names -> sdict_get kw n = Some (g n)) ->
  dataclass_new cls names (map (fun nx => (PyStr (fst nx), snd nx)) kw)
  = Ok (PyObject cls (map (fun n => (n, g n)) names)).
Proof.
  intros Hsub Hget. unfold dataclass_new.
  replace (forallb _ _) with true.
  - rewrite (mapM_Ok_id _ (fun n => (n, g n))); [reflexivity|].
    apply Forall_forall. intros n Hn.
    now rewrite dict_get_str, (Hget n Hn).
  - symmetry. apply forallb_forall. intros [k x] Hin.
    apply in_map_iff in Hin as ([n y] & E & Hin). injection E as <- <-.
    simpl. apply existsb_exists. exists n. split; [|apply String.eqb_refl].
    apply Hsub. apply in_map_iff. now exists (n, y).
Qed.

Lemma sdict_get_map_fst {A} (g : string -> PyVal) (its : list (string * A))
    (n : string) :
  In n (map fst its) ->
  sdict_get (map (fun nv => (fst nv, g (fst nv))) its) n = Some (g n).
Proof.
  induction its as [|[k s] its IH]; intros Hin; [contradiction|]. simpl.
  destruct (String.eqb k n) eqn:E.
  - apply String.eqb_eq in E. now subst.
  - apply IH. destruct Hin as [Hk|Hin]; [|assumption].
    simpl in Hk. subst. now rewrite String.eqb_refl in E.
Qed.

(** Decoding a struct scalar that carries the declared names: each field
    goes through the marshaller of its name, and the dataclass is called
    with keywords. *)
Lemma struct_from_arrow_decodes
    (cls : string) (fields : list (string * ArrowMarshaller))
    (its : list (string * Scalar)) (vals : list (string * PyVal)) :
  NoDup (map fst fields) ->
  Permutation (map fst its) (map fst fields) ->
  map fst vals = map fst fields ->
  (forall n s, In (n, s) its ->
     exists m x, In (n, m) fields /\ In (n, x) vals /\
                 from_arrow m (PyArrowScalar s) = Ok x) ->
  from_arrow (StructArrowMarshaller cls fields)
    (PyArrowScalar (StructScalar its))
  = Ok (PyObject cls vals).
Proof.
  intros Hnd Hperm Hnames Hdec.
  assert (Hnd_its : NoDup (map fst its)).
  { eapply Permutation_NoDup; [symmetry; eassumption | assumption]. }
  assert (Hnd_vals : NoDup (map fst vals)) by now rewrite Hnames.
  set (g := fun n => match sdict_get vals n with
                     | Some x => x
                     | None => PyNone
                     end).
  rewrite from_arrow_struct. cbn [py_items bind].
  rewrite (map_ext_in _ (fun nv => Ok (PyStr (fst nv), PyArrowScalar (snd nv)))).
  2:{ intros [n s] Hin. unfold struct_item. cbn [fst snd].
      rewrite (proj1 (NoDup_count_occ' string_dec _) Hnd_its n);
        [reflexivity|]. apply in_map_iff. now exists (n, s). }
  unfold dict_for_each. rewrite dict_comp_map. cbn [bind].
  match goal with
  | |- context [dict_comp ?f its []] =>
      assert (Hcomp : dict_comp f its []
                      = Ok (map (fun nx => (PyStr (fst nx), snd nx))
                              (map (fun nv => (fst nv, g (fst nv))) its)))
  end.
  { apply (dict_comp_fields _ g its Hnd_its) with (d := []);
      [|intros n []].
    intros [n s] Hin. cbn [fst snd field_from_arrow].
    destruct (Hdec n s Hin) as (m & x & Hm & Hx & Hfrom).
    rewrite (sdict_get_In fields n m Hnd Hm), Hfrom. cbn [bind].
    unfold g. now rewrite (sdict_get_In vals n x Hnd_vals Hx). }
  rewrite Hcomp. cbn [bind].
  rewrite (dataclass_new_fields cls (map fst fields) _ g).
  - f_equal. f_equal. rewrite <- Hnames, map_map.
    rewrite <- (map_id vals) at 2. apply map_ext_in.
    intros [n x] Hin. unfold g. cbn [fst].
    now rewrite (sdict_get_In vals n x Hnd_vals Hin).
  - intros n Hn. rewrite map_map in Hn. cbn [fst] in Hn.
    eapply Permutation_in; eassumption.
  - intros n Hn. apply sdict_get_map_fst.
    eapply Permutation_in; [symmetry; eassumption | assumption].
Qed.

(** C7 (struct field-order independence): let the struct scalar carry
    exactly the declared field names, in any physical order, and let each
    field's scalar decode through the marshaller declared for that name.
    Then [from_arrow] succeeds and returns the instance of the dataclass
    whose attribute of each name is the matching child's [from_arrow] of
    that field's scalar; and the same scalar with its fields in any other
    physical order decodes to the same instance. *)
Theorem struct_from_arrow_field_order
    (cls : string) (fields : list (string * ArrowMarshaller))
    (its its' : list (string * Scalar)) (vals : list (string * PyVal)) :
  NoDup (map fst fields) ->
  Permutation (map fst its) (map fst fields) ->
  Permutation its its' ->
  map fst vals = map fst fields ->
  (forall n s, In (n, s) its ->
     exists m x, In (n, m) fields /\ In (n, x) vals /\
                 from_arrow m (PyArrowScalar s) = Ok x) ->
  from_arrow (StructArrowMarshaller cls fields)
    (PyArrowScalar (StructScalar its))
  = Ok (PyObject cls vals) /\
  from_arrow (StructArrowMarshaller cls fields)
    (PyArrowScalar (StructScalar its'))
  = Ok (PyObject cls vals).
Proof.
  intros Hnd Hnames Hperm Hvals Hdec. split.
  - now apply struct_from_arrow_decodes.
  - apply struct_from_arrow_decodes; try assumption.
    + apply Permutation_trans with (map fst its); [|assumption].
      apply Permutation_map. now apply Permutation_sym.
    + intros n s Hin. apply Hdec.
      eapply Permutation_in; [apply Permutation_sym|]; eassumption.
Qed.

Lemma struct_from_arrow_field_order_witness :
  from_arrow PersonMarshaller
    (PyArrowScalar
       (StructScalar [("gender", BooleanScalar true);
                      ("name", StringScalar "Ada");
                      ("age", IntScalar pa_int64 36)]))
  = Ok (person "Ada" 36 true) /\
  from_arrow PersonMarshaller
    (PyArrowScalar
       (StructScalar [("age", IntScalar pa_int64 36);
                      ("gender", BooleanScalar true);
                      ("name", StringScalar "Ada")]))
  = Ok (person "Ada" 36 true).
Proof.
  apply struct_from_arrow_field_order.
  - repeat constructor; simpl; intuition discriminate.
  - simpl. apply Permutation_cons_app with (l1 := ["name"; "age"]) (l2 := []).
    apply Permutation_refl.
  - apply Permutation_cons_app
      with (l1 := [("age", IntScalar pa_int64 36)])
           (l2 := [("name", StringScalar "Ada")]).
    simpl. apply perm_swap.
  - reflexivity.
  - intros n s [E|[E|[E|[]]]]; injection E as <- <-.
    + exists fa.boolean, (PyBool true). simpl. intuition.
    + exists fa.string, (PyStr "Ada"). simpl. intuition.
    + exists fa.int64, (PyInt 36). simpl. intuition.
Defined.

(** ** The two decoding paths of a map *)

Lemma from_arrow_map (key value : ArrowMarshaller) (arrow : PyVal) :
  from_arrow (MapArrowMarshaller key value) arrow
  = if is_basic key && is_basic value then map_from_arrow_native arrow
    else map_from_arrow_indexed key value arrow.
Proof. reflexivity. Qed.

Lemma dict_comp_seq {A} (l : list A) :
  forall (H : nat -> result (PyVal * PyVal)) (h : A -> result (PyVal * PyVal)),
    (forall i x, nth_error l i = Some x -> H i = h x) ->
    forall d, dict_comp H (seq 0 (List.length l)) d = dict_comp h l d.
Proof.
  induction l as [|x l IH]; intros H h Hh d; [reflexivity|].
  cbn [List.length seq]. rewrite <- seq_shift. cbn [dict_comp].
  rewrite (Hh 0%nat x eq_refl).
  destruct (h x) as [kv|e]; cbn [bind]; [|reflexivity].
  destruct (dict_setitem d (fst kv) (snd kv)); cbn [bind]; [|reflexivity].
  rewrite dict_comp_map. apply IH. intros i y Hi. now apply Hh.
Qed.

Lemma index_map {A B} (f : A -> B) (l : list A) (i : nat) (x : A) :
  nth_error l i = Some x -> index (map f l) i = Ok (f x).
Proof.
  intros H. unfold index. now rewrite nth_error_map, H.
Qed.

(** C8, as amended: when both children are basic marshallers and the map
    scalar is valid (not null), indexing the scalar and decoding each key and
    item with the children gives exactly what the scalar's own iteration
    gives: the same dict with the same pairing of keys and values, entries
    with equal keys overwritten in the same order, or the same exception. *)
Theorem map_decoding_paths_agree (tk tv : builtin) (Tk Tv K V : DataType)
    (es : list (Scalar * Scalar)) :
  map_from_arrow_indexed (BasicTypeArrowMarshaller tk Tk)
    (BasicTypeArrowMarshaller tv Tv) (PyArrowScalar (MapScalar K V es))
  = map_from_arrow_native (PyArrowScalar (MapScalar K V es)).
Proof.
  unfold map_from_arrow_indexed, map_from_arrow_native, dict_for_each.
  cbn [py_len py_iter bind]. f_equal.
  rewrite dict_comp_map.
  apply dict_comp_seq. intros i [k v] Hi.
  cbn [py_getitem].
  rewrite (index_map _ es i (k, v) Hi). cbn [bind fst snd py_getitem index
    nth_error from_arrow call_as_py].
  destruct (as_py k) as [pk|e]; cbn [bind]; [|reflexivity].
  destruct (as_py v) as [pv|e]; cbn [bind]; reflexivity.
Qed.

(** The two paths differ on a null map scalar, and on a valid one as soon as
    a child is a struct marshaller: the scalar's own iteration decodes the
    item with [as_py], to a dict, the indexed path with the child, to an
    instance of the dataclass. *)
Lemma map_decoding_paths_differ :
  let arrow :=
    MapScalar pa_string (arrow_dtype PersonMarshaller)
      [(StringScalar "a",
        StructScalar [("name", StringScalar "Ada");
                      ("age", IntScalar pa_int64 36);
                      ("gender", BooleanScalar true)])] in
  let null_map := Null (pa_map_ pa_string pa_int64) in
  type_of arrow = arrow_dtype (MapArrowMarshaller fa.string PersonMarshaller) /\
  map_from_arrow_native (PyArrowScalar arrow)
  = Ok (PyDict [(PyStr "a",
                 PyDict [(PyStr "name", PyStr "Ada"); (PyStr "age", PyInt 36);
                         (PyStr "gender", PyBool true)])]) /\
  map_from_arrow_indexed fa.string PersonMarshaller (PyArrowScalar arrow)
  = Ok (PyDict [(PyStr "a", person "Ada" 36 true)]) /\
  map_from_arrow_native (PyArrowScalar arrow)
  <> map_from_arrow_indexed fa.string PersonMarshaller (PyArrowScalar arrow) /\
  type_of null_map = arrow_dtype (MapArrowMarshaller fa.string fa.int64) /\
  map_from_arrow_native (PyArrowScalar null_map) = Ok (PyDict []) /\
  map_from_arrow_indexed fa.string fa.int64 (PyArrowScalar null_map)
  = Raise TypeError.
Proof.
  cbv zeta. repeat split; try reflexivity. vm_compute. discriminate.
Qed.

(** ** Derivation *)

Lemma derive_Person : derive_arrow_marshaller Person = Ok PersonMarshaller.
Proof. reflexivity. Qed.

(** The branches of [derive_arrow_marshaller] in the source's terms. *)
Lemma derive_dataclass (cls : PyType) :
  is_dataclass cls = true ->
  derive_arrow_marshaller cls = StructArrowMarshaller_init cls.
Proof. destruct cls; try discriminate. reflexivity. Qed.

Lemma derive_sequence (cls : PyType) (origin : Origin) :
  get_origin cls = Some origin ->
  issubclass origin issubclass_Sequence = Ok true ->
  derive_arrow_marshaller cls
  = (a0 <- index (get_args cls) 0 ;;
     elem <- derive_arrow_marshaller a0 ;;
     Ok (ListArrowMarshaller elem)).
Proof.
  destruct cls as [| |o args| |]; try discriminate;
    intros H Hs; injection H as <-; [|discriminate].
  injection Hs as Hs. cbn [derive_arrow_marshaller get_args].
  rewrite Hs. destruct args; reflexivity.
Qed.

Lemma derive_mapping (cls : PyType) (origin : Origin) :
  get_origin cls = Some origin ->
  issubclass origin issubclass_Sequence = Ok false ->
  issubclass origin issubclass_Mapping = Ok true ->
  derive_arrow_marshaller cls
  = (a0 <- index (get_args cls) 0 ;;
     key <- derive_arrow_marshaller a0 ;;
     a1 <- index (get_args cls) 1 ;;
     value <- derive_arrow_marshaller a1 ;;
     Ok (MapArrowMarshaller key value)).
Proof.
  destruct cls as [| |o args| |]; try discriminate;
    intros H Hs Hm; injection H as <-; [|discriminate].
  injection Hs as Hs. injection Hm as Hm.
  cbn [derive_arrow_marshaller get_args].
  rewrite Hs, Hm. destruct args as [|a0 [|a1 rest]]; reflexivity.
Qed.

Lemma derive_origin_no_class (cls : PyType) (origin : Origin)
    (e : Exception) :
  get_origin cls = Some origin ->
  issubclass origin issubclass_Sequence = Raise e ->
  derive_arrow_marshaller cls = Raise e.
Proof.
  destruct cls as [| |o args| |]; try discriminate;
    intros H Hs; injection H as <-; [discriminate|].
  cbn in Hs. injection Hs as <-. reflexivity.
Qed.

Lemma derivation_reads_fields (n : string) (fs : list Field) (t : PyType) :
  In t (derivation_reads (dataclass n fs)) <->
  t = dataclass n fs \/
  exists f, In f fs /\ field_metadata f = None /\
            In t (derivation_reads (field_type f)).
Proof.
  cbn [derivation_reads In].
  assert (Hgo : forall l,
             In t ((fix go (fs : list Field) : list PyType :=
                      match fs with
                      | [] => []
                      | mkField _ t None :: fs' => derivation_reads t ++ go fs'
                      | mkField _ _ (Some _) :: fs' => go fs'
                      end) l) <->
             exists f, In f l /\ field_metadata f = None /\
                       In t (derivation_reads (field_type f))).
  { induction l as [|[fn ft [m|]] l IH].
    - split; [intros [] | intros (f & [] & _)].
    - rewrite IH. split.
      + intros (f & Hf & H). exists f. split; [now right | exact H].
      + intros (f & [<-|Hf] & Hmd & H); [discriminate | eauto].
    - rewrite in_app_iff, IH. split.
      + intros [H|(f & Hf & H)].
        * exists (mkField fn ft None). split; [now left | now split].
        * exists f. split; [now right | exact H].
      + intros (f & [<-|Hf] & Hmd & H); [now left | right; eauto]. }
  rewrite Hgo. split; (intros [H|H]; [left; congruence | now right]).
Qed.

Lemma derive_field_Raise (fs : list Field) (e : Exception) :
  mapM (fun f => m <- derive_arrow_marshaller_for_field f ;;
                 Ok (field_name f, m)) fs = Raise e ->
  exists f, In f fs /\ field_metadata f = None /\
            derive_arrow_marshaller (field_type f) = Raise e.
Proof.
  intros H. apply mapM_Raise_inv in H as ([fn t md] & Hin & H).
  apply bind_Raise_inv in H as [H|(m & _ & H)]; [|discriminate].
  destruct md as [m|]; [discriminate|].
  exists (mkField fn t None). now repeat split.
Qed.

(** C6, the claim as stated fails: a tuple of an int and a str, which is no
    homogeneous sequence, is derived as a list of int64 with nothing
    raised; a union, whose origin is no class, makes derivation raise the
    [TypeError] of [issubclass]; and a mapping generic with one argument
    the [IndexError] of [get_args(cls)[1]].  None of the three raises the
    [NotImplementedError] that names the type. *)
Lemma derive_degrades_or_misnames :
  let tuple_int_str :=
    generic_alias tuple_class [builtin_class py_int; builtin_class py_str] in
  let union_int_str :=
    special_alias "typing.Union[int, str]"
      [builtin_class py_int; builtin_class py_str] in
  let dict_str := generic_alias dict_class [builtin_class py_str] in
  derive_arrow_marshaller tuple_int_str = Ok (ListArrowMarshaller fa.int64) /\
  derive_arrow_marshaller union_int_str = Raise TypeError /\
  derive_arrow_marshaller dict_str = Raise IndexError /\
  forall msg,
    derive_arrow_marshaller tuple_int_str <> Raise (NotImplementedError msg) /\
    derive_arrow_marshaller union_int_str <> Raise (NotImplementedError msg) /\
    derive_arrow_marshaller dict_str <> Raise (NotImplementedError msg).
Proof.
  cbv zeta. repeat split; try reflexivity; discriminate.
Qed.

(** C6, as amended: a type that is none of the six builtin classes, no
    dataclass, and no parameterised generic or one whose origin is a class
    and a subclass neither of [Sequence] nor of [Mapping], makes
    [derive_arrow_marshaller] raise [NotImplementedError] with a message
    that names the type.  When derivation raises [NotImplementedError] on
    any type, the message names such a type among those derivation looks at
    inside it; and when such a type is among them, derivation returns no
    marshaller.  A generic over a sequence is derived from its first
    argument alone, one over a mapping from its first two. *)
Theorem derive_unsupported_named :
  (forall cls, unmatched cls ->
     derive_arrow_marshaller cls
     = Raise (NotImplementedError
                ("Cannot derive ArrowMarshaller for " ++ type_str cls)%string))
  /\
  (forall cls msg,
     derive_arrow_marshaller cls = Raise (NotImplementedError msg) ->
     exists t, In t (derivation_reads cls) /\ unmatched t /\
               msg = ("Cannot derive ArrowMarshaller for " ++ type_str t)%string)
  /\
  (forall cls t m,
     In t (derivation_reads cls) -> unmatched t ->
     derive_arrow_marshaller cls <> Ok m) /\
  (forall o a0 rest,
     issubclass_Sequence o = true ->
     derive_arrow_marshaller (generic_alias o (a0 :: rest))
     = derive_arrow_marshaller (generic_alias o [a0])) /\
  (forall o a0 a1 rest,
     issubclass_Sequence o = false -> issubclass_Mapping o = true ->
     derive_arrow_marshaller (generic_alias o (a0 :: a1 :: rest))
     = derive_arrow_marshaller (generic_alias o [a0; a1])).
Proof.
  assert (Htop : forall cls, unmatched cls ->
            derive_arrow_marshaller cls
            = Raise (NotImplementedError
                       ("Cannot derive ArrowMarshaller for "
                        ++ type_str cls)%string)).
  { intros cls (Hb & Hd & Ho).
    destruct cls as [b|n fs|o args|c|p args]; cbn in Hd, Ho.
    - now destruct (Hb b).
    - discriminate.
    - destruct Ho as [Hs Hm]. injection Hs as Hs. injection Hm as Hm.
      cbn [derive_arrow_marshaller]. now rewrite Hs, Hm.
    - reflexivity.
    - destruct Ho; discriminate. }
  split; [exact Htop|]. split; [|split; [|split]].
  - induction cls as [b|n fs IH|o args IH|c|p args _] using PyType_ind';
      intros msg H.
    + destruct b; discriminate.
    + cbn [derive_arrow_marshaller] in H.
      apply bind_Raise_inv in H as [H|(ms & _ & H)]; [|discriminate].
      apply derive_field_Raise in H as (f & Hin & Hmd & H).
      rewrite Forall_forall in IH.
      destruct (IH f Hin msg H) as (t & Ht & Hu & Hmsg).
      exists t. split; [|now split].
      apply derivation_reads_fields. right. eauto.
    + cbn [derive_arrow_marshaller] in H. cbn [derivation_reads].
      destruct (issubclass_Sequence o) eqn:Hs.
      * destruct args as [|a0 rest]; [discriminate|].
        apply bind_Raise_inv in H as [H|(m & _ & H)]; [|discriminate].
        inversion IH as [|? ? IH0 _]; subst.
        destruct (IH0 msg H) as (t & Ht & Hu). exists t.
        split; [now right | exact Hu].
      * destruct (issubclass_Mapping o) eqn:Hm.
        -- destruct args as [|a0 rest]; [discriminate|].
           inversion IH as [|? ? IH0 IH']; subst.
           apply bind_Raise_inv in H as [H|(k & _ & H)].
           ++ destruct (IH0 msg H) as (t & Ht & Hu). exists t.
              split; [|exact Hu]. right.
              destruct rest; [exact Ht | apply in_or_app; now left].
           ++ destruct rest as [|a1 rest]; [discriminate|].
              inversion IH' as [|? ? IH1 _]; subst.
              apply bind_Raise_inv in H as [H|(v & _ & H)]; [|discriminate].
              destruct (IH1 msg H) as (t & Ht & Hu). exists t.
              split; [|exact Hu]. right. apply in_or_app. now right.
        -- injection H as <-. eexists. split; [now left|].
           split; [|reflexivity].
           split; [intros b; discriminate|]. split; [reflexivity|].
           cbn. now rewrite Hs, Hm.
    + injection H as <-. eexists. split; [now left|].
      split; [|reflexivity].
      split; [intros b; discriminate|]. now split.
    + discriminate.
  - induction cls as [b|n fs IH|o args IH|c|p args _] using PyType_ind';
      intros t m Hin Hu.
    + destruct Hin as [<-|[]]. destruct Hu as (Hb & _). now destruct (Hb b).
    + apply derivation_reads_fields in Hin as [->|(f & Hf & Hmd & Hin)].
      * destruct Hu as (_ & Hd & _). discriminate.
      * cbn [derive_arrow_marshaller]. intros H.
        apply bind_Ok_inv in H as (ms & Hms & _).
        assert (Hall : exists r,
                   mapM (fun f => m <- derive_arrow_marshaller_for_field f ;;
                                  Ok (field_name f, m)) fs = Ok r) by eauto.
        apply mapM_Ok_exists in Hall. rewrite Forall_forall in Hall, IH.
        destruct (Hall f Hf) as (y & Hy).
        apply bind_Ok_inv in Hy as (m' & Hm' & _).
        destruct f as [fn ft md]. cbn in Hmd. subst md. cbn in Hm'.
        exact (IH _ Hf t m' Hin Hu Hm').
    + destruct Hin as [<-|Hin]; [now rewrite (Htop _ Hu)|].
      cbn [derive_arrow_marshaller].
      destruct (issubclass_Sequence o).
      * destruct args as [|a0 rest]; [discriminate|].
        inversion IH as [|? ? IH0 _]; subst.
        destruct (derive_arrow_marshaller a0) as [e0|] eqn:E0;
          [|discriminate].
        exfalso. exact (IH0 t e0 Hin Hu eq_refl).
      * destruct (issubclass_Mapping o); [|discriminate].
        destruct args as [|a0 rest]; [discriminate|].
        inversion IH as [|? ? IH0 IH']; subst.
        destruct (derive_arrow_marshaller a0) as [k|] eqn:E0;
          [|discriminate].
        destruct rest as [|a1 rest]; [discriminate|].
        inversion IH' as [|? ? IH1 _]; subst.
        destruct (derive_arrow_marshaller a1) as [v|] eqn:E1;
          [|discriminate].
        apply in_app_or in Hin as [Hin|Hin]; exfalso.
        -- exact (IH0 t k Hin Hu eq_refl).
        -- exact (IH1 t v Hin Hu eq_refl).
    + discriminate.
    + discriminate.
  - intros o a0 rest Hs. cbn [derive_arrow_marshaller]. now rewrite Hs.
  - intros o a0 a1 rest Hs Hm. cbn [derive_arrow_marshaller].
    now rewrite Hs, Hm.
Qed.

Lemma derive_unsupported_named_witness :
  let set_int := generic_alias set_class [builtin_class py_int] in
  let list_set_int := generic_alias list_class [set_int] in
  derive_arrow_marshaller set_int
  = Raise (NotImplementedError "Cannot derive ArrowMarshaller for set[int]") /\
  (exists t, In t (derivation_reads list_set_int) /\ unmatched t /\
             "Cannot derive ArrowMarshaller for set[int]"%string
             = ("Cannot derive ArrowMarshaller for " ++ type_str t)%string) /\
  (forall m, derive_arrow_marshaller list_set_int <> Ok m).
Proof.
  cbv zeta.
  assert (Hu : unmatched (generic_alias set_class [builtin_class py_int])).
  { split; [intros b; discriminate|]. split; [reflexivity|].
    split; reflexivity. }
  destruct derive_unsupported_named as (H1 & H2 & H3 & _).
  split; [exact (H1 _ Hu)|]. split.
  - apply (H2 (generic_alias list_class
                 [generic_alias set_class [builtin_class py_int]])).
    reflexivity.
  - intros m. apply (H3 _ (generic_alias set_class [builtin_class py_int])).
    + simpl. tauto.
    + exact Hu.
Defined.

Lemma sdict_set_In {A} (d : list (string * A)) (k : string) (v : A)
    (x : string * A) :
  In x (sdict_set d k v) -> In x d \/ x = (k, v).
Proof.
  induction d as [|[k' v'] d IH]; simpl.
  - intros [<-|[]]. now right.
  - destruct (String.eqb k' k) eqn:E.
    + apply String.eqb_eq in E. subst.
      intros [<-|H]; [now right | left; now right].
    + intros [<-|H]; [left; now left |].
      destruct (IH H) as [H'|H']; [left; now right | now right].
Qed.

Lemma sdict_of_In {A} (l : list (string * A)) (x : string * A) :
  In x (sdict_of l) -> In x l.
Proof.
  unfold sdict_of.
  assert (H : forall d, In x (fold_left
                                (fun d kv => sdict_set d (fst kv) (snd kv))
                                l d) -> In x d \/ In x l).
  { induction l as [|[k v] l IH]; intros d; simpl; [now left|].
    intros Hin. destruct (IH _ Hin) as [H|H]; [|right; now right].
    destruct (sdict_set_In _ _ _ _ H) as [H'|H'];
      [now left | right; now left]. }
  intros Hin. now destruct (H [] Hin) as [[]|].
Qed.

Lemma no_override_fields (n : string) (fs : list Field) :
  no_override (dataclass n fs) ->
  Forall (fun f => field_metadata f = None /\ no_override (field_type f)) fs.
Proof.
  cbn [no_override]. induction fs as [|[fn t md] fs IH]; intros H;
    constructor.
  - cbn. tauto.
  - apply IH. tauto.
Qed.

Lemma no_override_args (o : PyClass) (args : list PyType) :
  no_override (generic_alias o args) -> Forall no_override args.
Proof.
  cbn [no_override]. induction args as [|a args IH]; intros H; constructor.
  - tauto.
  - apply IH. tauto.
Qed.

Lemma derive_basics (cls : PyType) :
  forall m b,
    no_override cls ->
    derive_arrow_marshaller cls = Ok m ->
    In b (basics m) -> In b derived_basics.
Proof.
  induction cls as [t|n fs IH|o args IH|c|p args _] using PyType_ind';
    intros m b Hno Hd Hb.
  - destruct t; injection Hd as <-; destruct Hb as [<-|[]];
      unfold derived_basics; simpl; tauto.
  - cbn [derive_arrow_marshaller] in Hd.
    apply bind_Ok_inv in Hd as (ms & Hms & Hd). injection Hd as <-.
    cbn [basics] in Hb. apply in_flat_map in Hb as ([k m'] & Hin & Hb).
    apply sdict_of_In in Hin. apply mapM_Ok_Forall2 in Hms.
    apply no_override_fields in Hno.
    clear n. revert Hin.
    induction Hms as [|f km fs ms Hf _ IHms]; intros Hin; [contradiction|].
    inversion IH as [|? ? IHf IHfs]; subst.
    inversion Hno as [|? ? [Hmd Hnof] Hnofs]; subst.
    destruct Hin as [->|Hin]; [|now apply IHms].
    destruct f as [fn t md]. cbn in Hmd, Hnof, IHf. subst md.
    cbn in Hf. apply bind_Ok_inv in Hf as (m0 & Hm0 & Hf).
    injection Hf as _ <-. now apply (IHf m0 b).
  - apply no_override_args in Hno.
    cbn [derive_arrow_marshaller] in Hd.
    destruct (issubclass_Sequence o).
    + destruct args as [|a0 rest]; [discriminate|].
      apply bind_Ok_inv in Hd as (e & He & Hd). injection Hd as <-.
      inversion IH; subst. inversion Hno; subst. eauto.
    + destruct (issubclass_Mapping o); [|discriminate].
      destruct args as [|a0 [|a1 rest]]; try discriminate.
      * apply bind_Ok_inv in Hd as (k & _ & Hd). discriminate.
      * apply bind_Ok_inv in Hd as (k & Hk & Hd).
        apply bind_Ok_inv in Hd as (v & Hv & Hd). injection Hd as <-.
        inversion IH as [|? ? IH0 IH']; subst.
        inversion IH' as [|? ? IH1 _]; subst.
        inversion Hno as [|? ? Hn0 Hn']; subst.
        inversion Hn' as [|? ? Hn1 _]; subst.
        cbn [basics] in Hb. apply in_app_or in Hb as [Hb|Hb]; eauto.
  - discriminate.
  - discriminate.
Qed.

Lemma derive_basic_result (cls : PyType) (m : ArrowMarshaller) :
  derive_arrow_marshaller cls = Ok m -> is_basic m = true ->
  In m derived_basics.
Proof.
  intros Hd Hb. destruct cls as [t|n fs|o args|c|p args]; cbn in Hd.
  - destruct t; injection Hd as <-; unfold derived_basics; simpl; tauto.
  - apply bind_Ok_inv in Hd as (ms & _ & Hd). injection Hd as <-.
    discriminate.
  - destruct (issubclass_Sequence o).
    + destruct args; [discriminate|].
      apply bind_Ok_inv in Hd as (e & _ & Hd). injection Hd as <-.
      discriminate.
    + destruct (issubclass_Mapping o); [|discriminate].
      destruct args as [|a0 [|a1 rest]]; try discriminate.
      * apply bind_Ok_inv in Hd as (k & _ & Hd). discriminate.
      * apply bind_Ok_inv in Hd as (k & _ & Hd).
        apply bind_Ok_inv in Hd as (v & _ & Hd). injection Hd as <-.
        discriminate.
  - discriminate.
  - discriminate.
Qed.

(** C10: [derive_arrow_marshaller] maps [int] to [int64] and [float] to
    [float64]; the marshaller it returns is never one of the narrower basic
    marshallers (int8, int16, int32, uint8, uint16, uint32, uint64, float16,
    float32); and when no field of the type carries an override, every
    basic marshaller anywhere in the derived tree is one of null, boolean,
    int64, float64, string and binary, hence none of the narrower ones. *)
Theorem derive_never_narrow :
  derive_arrow_marshaller (builtin_class py_int) = Ok fa.int64 /\
  derive_arrow_marshaller (builtin_class py_float) = Ok fa.float64 /\
  (forall cls m, derive_arrow_marshaller cls = Ok m ->
                 ~ In m narrow_basics) /\
  (forall cls m b, no_override cls -> derive_arrow_marshaller cls = Ok m ->
                   In b (basics m) ->
                   In b derived_basics /\ ~ In b narrow_basics).
Proof.
  assert (Hsep : forall b, In b derived_basics -> ~ In b narrow_basics).
  { intros b Hd Hn. unfold derived_basics, narrow_basics in *. simpl in *.
    repeat match goal with
           | H : _ \/ _ |- _ => destruct H
           | H : False |- _ => destruct H
           end; subst; discriminate. }
  repeat split; try reflexivity.
  - intros cls m Hd Hn. apply (Hsep m); [|assumption].
    apply (derive_basic_result cls); [assumption|].
    unfold narrow_basics in Hn. simpl in Hn.
    repeat match goal with
           | H : _ \/ _ |- _ => destruct H
           | H : False |- _ => destruct H
           end; subst; reflexivity.
  - eapply derive_basics; eassumption.
  - apply Hsep. eapply derive_basics; eassumption.
Qed.

Lemma derive_never_narrow_witness :
  ~ In PersonMarshaller narrow_basics /\
  In fa.int64 derived_basics /\ ~ In fa.int64 narrow_basics.
Proof.
  destruct derive_never_narrow as (_ & _ & Htop & Hin).
  split.
  - apply (Htop Person). reflexivity.
  - apply (Hin Person PersonMarshaller fa.int64).
    + simpl. tauto.
    + reflexivity.
    + simpl. tauto.
Defined.

(** ** Encoding a dataclass below a map or a struct *)

(** C4: [MapArrowMarshaller.to_arrow] has one path only: whatever the
    children, the mapping goes to the engine as it is.  For the map from str
    to [Person] derived from [dict[str, Person]] and the conforming value
    [{"a": Person("Ada", 36, True)}] the engine cannot convert the dataclass
    instance and raises [ArrowTypeError]; encoding the entries with the
    children, as the claim describes, returns the map scalar, which the
    code's own [from_arrow] decodes back to the value. *)
Theorem map_to_arrow_skips_children :
  let m := MapArrowMarshaller fa.string PersonMarshaller in
  let py := PyDict [(PyStr "a", person "Ada" 36 true)] in
  let s :=
    MapScalar pa_string (arrow_dtype PersonMarshaller)
      [(StringScalar "a",
        StructScalar [("name", StringScalar "Ada");
                      ("age", IntScalar pa_int64 36);
                      ("gender", BooleanScalar true)])] in
  (forall key value v,
      to_arrow (MapArrowMarshaller key value) v
      = pa_scalar v (arrow_dtype (MapArrowMarshaller key value))) /\
  derive_arrow_marshaller
    (generic_alias dict_class [builtin_class py_str; Person]) = Ok m /\
  conforms m py /\
  to_arrow m py = Raise ArrowTypeError /\
  map_to_arrow_dual_path fa.string PersonMarshaller py = Ok s /\
  from_arrow m (PyArrowScalar s) = Ok py.
Proof.
  cbv zeta. split; [intros key value v; apply to_arrow_map|].
  repeat split; try reflexivity; simpl; repeat constructor;
    try discriminate; lia.
Qed.

(** C1: the round trip fails where a dataclass sits below a map or a
    struct.  The marshallers derived from [dict[str, Person]] and from the
    dataclass [Team] (whose field [lead] is a [Person]) raise
    [ArrowTypeError] in [to_arrow] on conforming values, so
    [from_arrow(to_arrow(v))] does not return [v]; neither [to_arrow] calls
    the marshaller of the child. *)
Theorem round_trip_fails_below_map_and_struct :
  let m := MapArrowMarshaller fa.string PersonMarshaller in
  let py := PyDict [(PyStr "a", person "Ada" 36 true)] in
  let team :=
    PyObject "Team" [("title", PyStr "core"); ("lead", person "Ada" 36 true)] in
  (derive_arrow_marshaller
     (generic_alias dict_class [builtin_class py_str; Person]) = Ok m /\
   conforms m py /\
   (s <- to_arrow m py ;; from_arrow m (PyArrowScalar s))
   = Raise ArrowTypeError) /\
  (derive_arrow_marshaller Team = Ok TeamMarshaller /\
   conforms TeamMarshaller team /\
   (s <- to_arrow TeamMarshaller team ;;
    from_arrow TeamMarshaller (PyArrowScalar s))
   = Raise ArrowTypeError).
Proof.
  cbv zeta. repeat split; try reflexivity; simpl; repeat constructor;
    try discriminate; lia.
Qed.

(** C2: the array round trip fails on the same shapes: [to_arrow_array]
    of the marshallers derived from [dict[str, Person]] and from [Team]
    encodes each element with [to_arrow] and raises [ArrowTypeError] on a
    one-element sequence of a conforming value. *)
Theorem array_round_trip_fails_below_map_and_struct :
  let m := MapArrowMarshaller fa.string PersonMarshaller in
  let py := PyDict [(PyStr "a", person "Ada" 36 true)] in
  let team :=
    PyObject "Team" [("title", PyStr "core"); ("lead", person "Ada" 36 true)] in
  (Forall (conforms m) [py] /\
   (a <- to_arrow_array m [py] ;; from_arrow_array m a)
   = Raise ArrowTypeError) /\
  (Forall (conforms TeamMarshaller) [team] /\
   (a <- to_arrow_array TeamMarshaller [team] ;;
    from_arrow_array TeamMarshaller a)
   = Raise ArrowTypeError).
Proof.
  cbv zeta. repeat split; try reflexivity; simpl; repeat constructor;
    try discriminate; lia.
Qed.

(** ** What the conversions check *)

(** [None] does not conform to the 64-bit integer marshaller and is encoded
    all the same, as a null; an instance of another class, with another set
    of fields, is encoded by the [Person] marshaller as a struct of nulls;
    and the 8-bit integer marshaller decodes a string scalar, whose data
    type is not its own. *)
Lemma conversions_accept_mismatches :
  let point := PyObject "Point" [("x", PyInt 1)] in
  (~ conforms fa.int64 PyNone /\
   to_arrow fa.int64 PyNone = Ok (Null pa_int64)) /\
  (~ conforms PersonMarshaller point /\
   to_arrow PersonMarshaller point
   = Ok (StructScalar [("name", Null pa_string); ("age", Null pa_int64);
                       ("gender", Null pa_bool_)])) /\
  (type_of (StringScalar "x") <> arrow_dtype fa.int8 /\
   from_arrow fa.int8 (PyArrowScalar (StringScalar "x")) = Ok (PyStr "x")).
Proof.
  cbv zeta. repeat split; try reflexivity; simpl; try tauto; discriminate.
Qed.

Lemma int_bounds_convert (T : DataType) (lo hi z : Z) (v : PyVal) :
  int_bounds T = Some (lo, hi) ->
  convert T (PyInt z)
  = if fits_c_long lo z then
      if (lo <=? z) && (z <=? hi) then Ok (IntScalar T z)
      else Raise ArrowInvalid
    else Raise OverflowError.
Proof.
  destruct T; simpl; try discriminate; intros H; injection H as <- <-;
    reflexivity.
Qed.

(** C5, as amended: [to_arrow] fails with the engine's exception where the
    engine cannot convert the value — an integer marshaller raises
    [ArrowInvalid] on every integer outside the bounds of its data type
    ([OverflowError] when the integer does not even fit the C integer) —
    and a struct marshaller raises [AttributeError] on every value that is
    not a class instance; a basic marshaller encodes [None] as a null.
    [from_arrow] compares no data types: a basic marshaller returns
    [as_py()] of whatever scalar it is given; a struct marshaller raises
    [KeyError] when the first field of the scalar has a name that is not
    declared. *)
Theorem conversion_failures :
  (forall t T lo hi z,
      int_bounds T = Some (lo, hi) -> ~ lo <= z <= hi ->
      to_arrow (BasicTypeArrowMarshaller t T) (PyInt z)
      = Raise (if fits_c_long lo z then ArrowInvalid else OverflowError)) /\
  (forall cls fields py,
      (forall c d, py <> PyObject c d) ->
      to_arrow (StructArrowMarshaller cls fields) py = Raise AttributeError) /\
  (forall t T,
      to_arrow (BasicTypeArrowMarshaller t T) PyNone = Ok (Null T)) /\
  (forall t T s,
      from_arrow (BasicTypeArrowMarshaller t T) (PyArrowScalar s) = as_py s) /\
  (forall cls fields n s its,
      sdict_get fields n = None -> ~ In n (map fst its) ->
      from_arrow (StructArrowMarshaller cls fields)
        (PyArrowScalar (StructScalar ((n, s) :: its)))
      = Raise (KeyError (PyStr n))).
Proof.
  repeat split.
  - intros t T lo hi z Hb Hz. cbn [to_arrow arrow_dtype]. unfold pa_scalar.
    rewrite (int_bounds_convert T lo hi z PyNone Hb).
    destruct (fits_c_long lo z); [|reflexivity].
    destruct ((lo <=? z) && (z <=? hi)) eqn:E; [|reflexivity].
    apply andb_true_iff in E as [E1 E2]. exfalso. apply Hz. lia.
  - intros cls fields py Hpy. cbn [to_arrow].
    destruct py; try reflexivity. now destruct (Hpy cls0 dict).
  - intros t T. cbn [to_arrow arrow_dtype]. unfold pa_scalar.
    destruct T; reflexivity.
  - intros cls fields n s its Hget Hn.
    rewrite from_arrow_struct. cbn [py_items bind map fst].
    unfold dict_for_each. cbn [dict_comp]. unfold struct_item at 1.
    cbn [fst snd count_occ].
    destruct (string_dec n n) as [_|Hne]; [|now destruct Hne].
    rewrite (proj1 (count_occ_not_In string_dec _ _) Hn).
    cbn [Nat.eqb bind fst snd field_from_arrow]. rewrite Hget. reflexivity.
Qed.

Lemma conversion_failures_witness :
  to_arrow fa.int8 (PyInt 300) = Raise ArrowInvalid /\
  to_arrow PersonMarshaller (PyInt 3) = Raise AttributeError /\
  from_arrow PersonMarshaller
    (PyArrowScalar (StructScalar [("nick", StringScalar "A")]))
  = Raise (KeyError (PyStr "nick")).
Proof.
  destruct conversion_failures as (Hint & Hstruct & _ & _ & Hkey).
  split; [|split].
  - apply (Hint py_int pa_int8 (- 2 ^ 7) (2 ^ 7 - 1) 300); [reflexivity | lia].
  - apply Hstruct. intros c d. discriminate.
  - apply Hkey; [reflexivity | simpl; tauto].
Defined.

(** ** Round trips on flat shapes *)

Lemma dict_wf_app_inv (d0 : list (PyVal * PyVal)) (k v : PyVal)
    (rest : list (PyVal * PyVal)) :
  dict_wf (d0 ++ (k, v) :: rest) ->
  hashable k = true /\
  (forall k' y, In (k', y) d0 -> key_eq k' k = false).
Proof.
  induction d0 as [|[k0 v0] d0 IH]; simpl.
  - intros (Hh & _ & _ & _). split; [assumption | intros ? ? []].
  - intros (_ & _ & Hall & Hwf). destruct (IH Hwf) as [Hh Hd0].
    split; [assumption|]. intros k' y [E|Hin].
    + injection E as <- <-. rewrite Forall_forall in Hall.
      apply (Hall (k, v)). apply in_or_app. right. now left.
    + now apply (Hd0 k' y).
Qed.

Lemma dict_comp_Forall2 {A} (f : A -> result (PyVal * PyVal)) (l : list A)
    (d : list (PyVal * PyVal)) :
  Forall2 (fun x kv => f x = Ok kv) l d ->
  forall d0, dict_wf (d0 ++ d) -> dict_comp f l d0 = Ok (d0 ++ d).
Proof.
  induction 1 as [|x [k v] l d Hx _ IH]; intros d0 Hwf; simpl.
  - now rewrite app_nil_r.
  - rewrite Hx. cbn [bind fst snd]. unfold dict_setitem.
    destruct (dict_wf_app_inv _ _ _ _ Hwf) as [Hh Hfresh].
    rewrite Hh, (dict_update_fresh _ _ _ Hfresh). cbn [bind].
    rewrite IH; rewrite <- app_assoc; [reflexivity | assumption].
Qed.

Lemma conforms_primitive_round_trip (T : DataType) (v : PyVal) :
  conforms_primitive T v ->
  exists s, convert T v = Ok s /\ as_py s = Ok v /\
            (v <> PyNone -> is_valid s = true).
Proof.
  intros H. destruct v; try (destruct T; contradiction).
  - destruct T; try contradiction. exists (Null pa_null).
    repeat split. intros E. now destruct E.
  - destruct T; try contradiction. exists (BooleanScalar b). now repeat split.
  - unfold conforms_primitive in H.
    destruct (int_bounds T) as [[lo hi]|] eqn:Hb;
      [|destruct T; contradiction].
    assert (Hz : lo <= z <= hi) by (destruct T; assumption).
    exists (IntScalar T z). rewrite (int_bounds_convert T lo hi z PyNone Hb).
    replace (fits_c_long lo z) with true.
    + replace ((lo <=? z) && (z <=? hi)) with true
        by (symmetry; apply andb_true_iff; split; apply Z.leb_le; lia).
      now repeat split.
    + symmetry. unfold fits_c_long.
      destruct T; try discriminate; injection Hb as <- <-;
        cbn [Z.ltb Z.compare Z.opp Z.pow Z.pow_pos Pos.iter Z.mul Pos.mul
             Z.sub Z.add Z.pos_sub Pos.add Pos.succ Z.succ_double
             Z.pred_double Z.double Pos.pred_double] in *;
        apply andb_true_iff; split; apply Z.leb_le; lia.
  - unfold conforms_primitive in H.
    destruct (float_format T) as [[prec emax]|] eqn:Hf;
      [|destruct T; contradiction].
    assert (Hn : narrow prec emax f = f) by (destruct T; assumption).
    exists (FloatScalar T f).
    destruct T; try discriminate; simpl in Hf; injection Hf as <- <-;
      cbn [convert convert_primitive int_bounds float_format];
      rewrite Hn; now repeat split.
  - destruct T; try contradiction. exists (StringScalar s). now repeat split.
  - destruct T; try contradiction. exists (BinaryScalar b). now repeat split.
Qed.

Lemma Forall2_In_r {A B} (R : A -> B -> Prop) (l : list A) (l' : list B)
    (y : B) :
  Forall2 R l l' -> In y l' -> exists x, In x l /\ R x y.
Proof.
  induction 1 as [|a b l l' Hab _ IH]; intros Hin; [contradiction|].
  destruct Hin as [<-|Hin].
  - exists a. split; [now left | assumption].
  - destruct (IH Hin) as (x & Hx & Hr). exists x. split; [now right | assumption].
Qed.

Lemma from_arrow_basic_as_py (e : ArrowMarshaller) (s : Scalar) :
  is_basic e = true -> from_arrow e (PyArrowScalar s) = as_py s.
Proof. destruct e; try discriminate; reflexivity. Qed.

Lemma dict_wf_keys (d : list (PyVal * PyVal)) :
  dict_wf d -> Forall (fun kv => fst kv <> PyNone) d.
Proof.
  induction d as [|[k v] d IH]; intros H; constructor.
  - simpl in *. tauto.
  - apply IH. simpl in H. tauto.
Qed.

(** On a plain shape the engine encodes a conforming value by itself, and
    the marshaller decodes the scalar back to the value. *)
Lemma native_round_trip (m : ArrowMarshaller) :
  plain m ->
  forall v, conforms m v ->
  exists s, convert (arrow_dtype m) v = Ok s /\
            from_arrow m (PyArrowScalar s) = Ok v /\
            (v <> PyNone -> is_valid s = true).
Proof.
  induction m as [t T|e IH|k x IHk IHx|c fs _] using ArrowMarshaller_ind';
    intros Hp v Hc.
  - destruct (conforms_primitive_round_trip T v Hc) as (s & H1 & H2 & H3).
    exists s. auto.
  - cbn in Hc, Hp. destruct v as [| | | | | |l| | | |]; try contradiction.
    assert (Hall : exists ss,
               Forall2 (fun x s => convert (arrow_dtype e) x = Ok s /\
                                   from_arrow e (PyArrowScalar s) = Ok x)
                 l ss).
    { induction Hc as [|x l Hx _ IHl]; [exists []; constructor|].
      destruct IHl as [ss Hss].
      destruct (IH Hp x Hx) as (s & H1 & H2 & _).
      exists (s :: ss). constructor; auto. }
    destruct Hall as [ss Hss].
    exists (ListScalar (arrow_dtype e) ss). split; [|split].
    + cbn [arrow_dtype convert].
      replace (mapM (convert (arrow_dtype e)) l) with (Ok ss); [reflexivity|].
      symmetry. apply mapM_Ok_Forall2.
      revert Hss. apply Forall2_impl. tauto.
    + cbn [from_arrow]. destruct (is_basic e) eqn:He.
      * cbn [call_as_py as_py].
        replace (mapM as_py ss) with (Ok l); [reflexivity|].
        symmetry. apply mapM_Ok_Forall2. apply Forall2_flip.
        revert Hss. apply Forall2_impl. intros a b [_ H].
        now rewrite <- (from_arrow_basic_as_py e b He).
      * cbn [py_iter bind]. unfold for_each. rewrite mapM_map. cbn [bind].
        replace (mapM _ ss) with (Ok l); [reflexivity|].
        symmetry. apply mapM_Ok_Forall2. apply Forall2_flip.
        revert Hss. apply Forall2_impl. tauto.
    + reflexivity.
  - cbn in Hc, Hp. destruct Hp as [Hpk Hpx].
    destruct v as [| | | | | | | |d| |]; try contradiction.
    destruct Hc as (Hwf & Hck & Hcx).
    assert (Hall : exists es,
               Forall2 (fun kv e =>
                          convert (arrow_dtype k) (fst kv) = Ok (fst e) /\
                          convert (arrow_dtype x) (snd kv) = Ok (snd e) /\
                          from_arrow k (PyArrowScalar (fst e)) = Ok (fst kv) /\
                          from_arrow x (PyArrowScalar (snd e)) = Ok (snd kv) /\
                          is_valid (fst e) = true)
                 d es).
    { apply dict_wf_keys in Hwf.
      induction d as [|[a b] d IHd]; [exists []; constructor|].
      inversion Hck; inversion Hcx; inversion Hwf; subst.
      destruct IHd as [es Hes]; try assumption.
      destruct (IHk Hpk a) as (sa & A1 & A2 & A3); [assumption|].
      destruct (IHx Hpx b) as (sb & B1 & B2 & _); [assumption|].
      exists ((sa, sb) :: es). constructor; [|assumption].
      cbn [fst snd] in *. repeat split; auto. }
    destruct Hall as [es Hes].
    exists (MapScalar (arrow_dtype k) (arrow_dtype x) es). split; [|split].
    + cbn [arrow_dtype convert].
      replace (mapM _ d) with (Ok es).
      * cbn [bind]. unfold check_map_keys.
        replace (forallb _ es) with true; [reflexivity|].
        symmetry. apply forallb_forall. intros e He.
        destruct (Forall2_In_r _ _ _ _ Hes He) as (kv & _ & H).
        tauto.
      * symmetry. apply mapM_Ok_Forall2.
        revert Hes. apply Forall2_impl. intros kv [a b] (H1 & H2 & _).
        cbn [fst snd] in *. now rewrite H1, H2.
    + rewrite from_arrow_map.
      destruct (is_basic k && is_basic x) eqn:Hb.
      * apply andb_true_iff in Hb as [Hbk Hbx].
        unfold map_from_arrow_native, dict_for_each. cbn [py_iter bind].
        rewrite dict_comp_map.
        rewrite (dict_comp_Forall2 _ es d); [reflexivity| |exact Hwf].
        apply Forall2_flip. revert Hes. apply Forall2_impl.
        intros [a b] [sa sb] (_ & _ & H3 & H4 & _). cbn [fst snd] in *.
        rewrite <- (from_arrow_basic_as_py k sa Hbk), H3.
        rewrite <- (from_arrow_basic_as_py x sb Hbx), H4. reflexivity.
      * unfold map_from_arrow_indexed. cbn [py_len bind].
        rewrite (dict_comp_seq es _
                   (fun e => a <- from_arrow k (PyArrowScalar (fst e)) ;;
                             b <- from_arrow x (PyArrowScalar (snd e)) ;;
                             Ok (a, b))).
        -- rewrite (dict_comp_Forall2 _ es d); [reflexivity| |exact Hwf].
           apply Forall2_flip. revert Hes. apply Forall2_impl.
           intros [a b] [sa sb] (_ & _ & H3 & H4 & _). cbn [fst snd] in *.
           now rewrite H3, H4.
        -- intros i [sa sb] Hi. cbn [py_getitem].
           rewrite (index_map _ es i (sa, sb) Hi).
           cbn [bind fst snd py_getitem index nth_error]. reflexivity.
    + reflexivity.
  - contradiction.
Qed.

Lemma mapM_convert_scalars (T : DataType) (ss : list Scalar) :
  Forall (fun s => type_of s = T) ss ->
  mapM (convert T) (map PyArrowScalar ss) = Ok ss.
Proof.
  intros H. rewrite mapM_map, (mapM_Ok_id _ (fun s => s)).
  - now rewrite map_id.
  - revert H. apply Forall_impl. intros s. apply convert_scalar.
Qed.

Lemma for_each_Ok {A B} (f : A -> result B) (l : list A) :
  for_each f (map Ok l) = mapM f l.
Proof. unfold for_each. now rewrite mapM_map. Qed.

(** A list of encoded elements is packed as it is. *)
Lemma pack_list_scalars (E : DataType) (ss : list Scalar) :
  Forall (fun s => type_of s = E) ss ->
  (s <- pa_scalar (PyList (map PyArrowScalar ss)) (pa_list_ E) ;;
   _ <- assert (isinstance_List (type_of s)) ;; Ok s)
  = Ok (ListScalar E ss).
Proof.
  intros H. unfold pa_scalar. cbn [convert].
  now rewrite (mapM_convert_scalars E ss H).
Qed.

(** On a plain shape [to_arrow] is the engine's conversion. *)
Lemma plain_to_arrow (m : ArrowMarshaller) :
  plain m -> forall v, conforms m v ->
  to_arrow m v = convert (arrow_dtype m) v.
Proof.
  induction m as [t T|e IH|k x _ _|c fs _] using ArrowMarshaller_ind';
    intros Hp v Hc.
  - reflexivity.
  - destruct (is_basic e) eqn:He; [now apply to_arrow_list_basic|].
    cbn in Hc, Hp. destruct v as [| | | | | |l| | | |]; try contradiction.
    cbn [to_arrow]. rewrite He. cbn [py_iter bind]. rewrite for_each_Ok.
    rewrite (mapM_ext (to_arrow e) (convert (arrow_dtype e)) l).
    + cbn [arrow_dtype convert].
      destruct (mapM (convert (arrow_dtype e)) l) as [ss|err] eqn:E;
        [|reflexivity].
      cbn [bind]. apply pack_list_scalars.
      apply mapM_Ok_Forall2 in E. clear - E.
      induction E as [|x s l ss Hx _ IHE]; constructor;
        [eapply convert_type; eassumption | assumption].
    + intros y Hy. apply IH; [assumption|].
      rewrite Forall_forall in Hc. now apply Hc.
  - apply to_arrow_map.
  - contradiction.
Qed.

Lemma conforms_struct_fields (cls c : string)
    (fields : list (string * ArrowMarshaller)) (d : list (string * PyVal)) :
  conforms (StructArrowMarshaller cls fields) (PyObject c d) ->
  c = cls /\
  Forall2 (fun nm nv => fst nm = fst nv /\ conforms (snd nm) (snd nv))
    fields d.
Proof.
  cbn [conforms]. intros [Hc H]. split; [assumption|]. clear Hc.
  revert d H. induction fields as [|[n m] fs IH]; intros [|[n' v] d] H;
    try contradiction; constructor.
  - cbn [fst snd]. tauto.
  - apply IH. tauto.
Qed.

(** The engine builds a struct from a dict by looking each field up. *)
Lemma convert_struct_fields (d : list (PyVal * PyVal))
    (ts : list (string * DataType)) (its : list (string * Scalar)) :
  Forall2 (fun nt ns =>
             fst nt = fst ns /\
             convert (snd nt)
               match dict_get d (PyStr (fst nt)) with
               | Some x => x
               | None => PyNone
               end = Ok (snd ns)) ts its ->
  convert (pa_struct ts) (PyDict d) = Ok (StructScalar its).
Proof.
  intros H. cbn [convert].
  match goal with
  | |- bind ?c _ = _ => replace c with (Ok its); [reflexivity|]
  end.
  symmetry.
  induction H as [|[n t] [n' s] ts its [Hn Hs] _ IH]; [reflexivity|].
  cbn [fst snd] in *. subst n'. rewrite Hs. cbn [bind]. rewrite IH.
  reflexivity.
Qed.

Lemma Forall2_map_fst {A B C} (R : A * B -> A * C -> Prop)
    (l : list (A * B)) (l' : list (A * C)) :
  Forall2 R l l' -> (forall x y, R x y -> fst x = fst y) ->
  map fst l = map fst l'.
Proof.
  intros H HR. induction H as [|x y l l' Hxy _ IH]; [reflexivity|].
  simpl. now rewrite (HR x y Hxy), IH.
Qed.

Lemma fields_native_round_trip (d : list (string * PyVal))
    (fs : list (string * ArrowMarshaller)) (ds : list (string * PyVal)) :
  Forall2 (fun nm nv => fst nm = fst nv /\ conforms (snd nm) (snd nv)) fs ds ->
  Forall (fun nm => plain (snd nm)) fs ->
  (forall nv, In nv ds -> In nv d) ->
  exists its,
    Forall2 (fun nm ns =>
               fst nm = fst ns /\
               exists x, In (fst nm, x) d /\
                 convert (arrow_dtype (snd nm)) x = Ok (snd ns) /\
                 from_arrow (snd nm) (PyArrowScalar (snd ns)) = Ok x)
      fs its.
Proof.
  induction 1 as [|[n m] [n' v] fs ds [Hn Hv] _ IH]; intros Hpl Hsub.
  - exists []. constructor.
  - inversion Hpl as [|? ? Hpm Hpl']; subst. cbn [fst snd] in *. subst n'.
    destruct (IH Hpl') as [its Hits].
    { intros nv Hin. apply Hsub. now right. }
    destruct (native_round_trip m Hpm v Hv) as (s & H1 & H2 & _).
    exists ((n, s) :: its). constructor; [|assumption].
    cbn [fst snd]. split; [reflexivity|]. exists v.
    split; [apply Hsub; now left | auto].
Qed.

(** On a flat shape a conforming value is encoded, and the scalar decodes
    back to the value. *)
Lemma flat_round_trip (m : ArrowMarshaller) :
  flat m -> forall v, conforms m v ->
  exists s, to_arrow m v = Ok s /\ from_arrow m (PyArrowScalar s) = Ok v.
Proof.
  assert (Hplain : forall m, plain m -> forall v, conforms m v ->
            exists s, to_arrow m v = Ok s /\
                      from_arrow m (PyArrowScalar s) = Ok v).
  { intros m0 Hp v Hc.
    destruct (native_round_trip m0 Hp v Hc) as (s & H1 & H2 & _).
    exists s. split; [|assumption]. now rewrite plain_to_arrow. }
  induction m as [t T|e IH|k x _ _|c fs _] using ArrowMarshaller_ind';
    intros Hf v Hc.
  - now apply Hplain.
  - destruct (is_basic e) eqn:He.
    + apply Hplain; [|assumption]. destruct e; try discriminate. exact I.
    + cbn in Hc, Hf. destruct v as [| | | | | |l| | | |]; try contradiction.
      assert (Hall : exists ss,
                 Forall2 (fun x s => to_arrow e x = Ok s /\
                                     from_arrow e (PyArrowScalar s) = Ok x)
                   l ss).
      { induction Hc as [|x l Hx _ IHl]; [exists []; constructor|].
        destruct IHl as [ss Hss]. destruct (IH Hf x Hx) as (s & H1 & H2).
        exists (s :: ss). constructor; auto. }
      destruct Hall as [ss Hss].
      exists (ListScalar (arrow_dtype e) ss). split.
      * cbn [to_arrow]. rewrite He. cbn [py_iter bind]. rewrite for_each_Ok.
        replace (mapM (to_arrow e) l) with (Ok ss).
        -- cbn [bind arrow_dtype]. apply pack_list_scalars.
           clear - Hss. induction Hss as [|x s l ss [Hx _] _ IHs];
             constructor; [eapply to_arrow_type; eassumption | assumption].
        -- symmetry. apply mapM_Ok_Forall2.
           revert Hss. apply Forall2_impl. tauto.
      * cbn [from_arrow]. rewrite He. cbn [py_iter bind].
        unfold for_each. rewrite mapM_map. cbn [bind].
        replace (mapM _ ss) with (Ok l); [reflexivity|].
        symmetry. apply mapM_Ok_Forall2. apply Forall2_flip.
        revert Hss. apply Forall2_impl. tauto.
  - apply Hplain; assumption.
  - destruct Hf as [Hnd Hpl].
    destruct v as [| | | | | | | | |c' d|]; try contradiction.
    destruct (conforms_struct_fields _ _ _ _ Hc) as [-> Hfields].
    assert (Hnames : map fst fs = map fst d).
    { apply (Forall2_map_fst _ _ _ Hfields). tauto. }
    assert (Hnd_d : NoDup (map fst d)) by now rewrite <- Hnames.
    assert (Hall : exists its,
               Forall2 (fun nm ns =>
                          fst nm = fst ns /\
                          exists x, In (fst nm, x) d /\
                            convert (arrow_dtype (snd nm)) x = Ok (snd ns) /\
                            from_arrow (snd nm) (PyArrowScalar (snd ns)) = Ok x)
                 fs its).
    { apply (fields_native_round_trip d fs d); auto. }
    destruct Hall as [its Hits].
    exists (StructScalar its). split.
    + cbn [to_arrow getattr_dict bind]. unfold pa_scalar, as_dict.
      cbn [arrow_dtype].
      rewrite (convert_struct_fields _ _ its); [reflexivity|].
      clear - Hits Hnd_d. induction Hits as [|[n m] [n' s] fs its H _ IHits];
        cbn [map]; constructor; [|assumption].
      cbn [fst snd] in *. destruct H as (-> & x & Hin & Hconv & _).
      split; [reflexivity|].
      now rewrite dict_get_str, (sdict_get_In d n' x Hnd_d Hin).
    + assert (Hnames' : map fst its = map fst fs).
      { symmetry. apply (Forall2_map_fst _ _ _ Hits). tauto. }
      apply struct_from_arrow_decodes; try assumption.
      * rewrite Hnames'. apply Permutation_refl.
      * now symmetry.
      * intros n s Hin.
        destruct (Forall2_In_r _ _ _ _ Hits Hin) as ([n' m] & Hm & H).
        cbn [fst snd] in H. destruct H as (-> & x & Hx & _ & Hfrom).
        exists m, x. auto.
Qed.

Lemma to_arrow_array_Ok (m : ArrowMarshaller) (xs : list PyVal)
    (ss : list Scalar) :
  mapM (to_arrow m) xs = Ok ss ->
  to_arrow_array m xs = Ok (mkArray (arrow_dtype m) ss).
Proof.
  intros H.
  assert (Heach : (l <- mapM (to_arrow m) xs ;;
                   pa_array (map PyArrowScalar l) (arrow_dtype m))
                  = Ok (mkArray (arrow_dtype m) ss))
    by (rewrite encode_each_packs, H; reflexivity).
  destruct m as [t T|e|k v|c fs]; unfold to_arrow_array.
  - unfold pa_array.
    change (mapM (convert (arrow_dtype (BasicTypeArrowMarshaller t T))) xs)
      with (mapM (to_arrow (BasicTypeArrowMarshaller t T)) xs).
    now rewrite H.
  - destruct (is_basic e) eqn:He; [|now rewrite Heach].
    unfold pa_array.
    rewrite (mapM_ext _ (to_arrow (ListArrowMarshaller e)) xs)
      by (intros; symmetry; now apply to_arrow_list_basic).
    now rewrite H.
  - destruct (is_basic k && is_basic v); [|now rewrite Heach].
    unfold pa_array.
    rewrite (mapM_ext _ (to_arrow (MapArrowMarshaller k v)) xs)
      by (intros; symmetry; apply to_arrow_map).
    now rewrite H.
  - now rewrite Heach.
Qed.

(** X1: round trip on flat shapes: where no dataclass lies below a map or
    a struct, [from_arrow(to_arrow(v))] returns [v] for every conforming
    value [v]. *)
Theorem round_trip_flat (m : ArrowMarshaller) (v : PyVal) :
  flat m -> conforms m v ->
  (s <- to_arrow m v ;; from_arrow m (PyArrowScalar s)) = Ok v.
Proof.
  intros Hf Hc. destruct (flat_round_trip m Hf v Hc) as (s & H1 & H2).
  now rewrite H1.
Qed.

(** X2: array round trip on flat shapes:
    [from_arrow_array(to_arrow_array(xs))] returns [xs] for every sequence
    of conforming values. *)
Theorem array_round_trip_flat (m : ArrowMarshaller) (xs : list PyVal) :
  flat m -> Forall (conforms m) xs ->
  (a <- to_arrow_array m xs ;; from_arrow_array m a) = Ok xs.
Proof.
  intros Hf Hc.
  assert (Hall : exists ss,
             Forall2 (fun x s => to_arrow m x = Ok s /\
                                 from_arrow m (PyArrowScalar s) = Ok x)
               xs ss).
  { induction Hc as [|x xs Hx _ IH]; [exists []; constructor|].
    destruct IH as [ss Hss].
    destruct (flat_round_trip m Hf x Hx) as (s & H1 & H2).
    exists (s :: ss). constructor; auto. }
  destruct Hall as [ss Hss].
  rewrite (to_arrow_array_Ok m xs ss).
  2:{ apply mapM_Ok_Forall2. revert Hss. apply Forall2_impl. tauto. }
  cbn [bind].
  assert (Hdec : mapM (from_arrow m) (map PyArrowScalar ss) = Ok xs).
  { rewrite mapM_map. apply mapM_Ok_Forall2. apply Forall2_flip.
    revert Hss. apply Forall2_impl. tauto. }
  destruct m as [t T|e|k v|c fs]; unfold from_arrow_array;
    cbn [array_values]; try exact Hdec.
  - unfold to_pylist. cbn [array_values]. rewrite mapM_map in Hdec.
    exact Hdec.
  - destruct (is_basic e) eqn:He; [|exact Hdec].
    unfold to_pylist. cbn [array_values]. rewrite mapM_map in Hdec.
    rewrite <- Hdec. apply mapM_ext. intros s _.
    cbn [from_arrow]. now rewrite He.
Qed.

(** The shapes of the test module are flat. *)
Lemma test_shapes_flat :
  derive_arrow_marshaller (generic_alias list_class [builtin_class py_int])
  = Ok (ListArrowMarshaller fa.int64) /\
  flat (ListArrowMarshaller fa.int64) /\
  derive_arrow_marshaller
    (generic_alias dict_class [builtin_class py_str; builtin_class py_int])
  = Ok (MapArrowMarshaller fa.string fa.int64) /\
  flat (MapArrowMarshaller fa.string fa.int64) /\
  flat PersonMarshaller.
Proof.
  repeat split; simpl; repeat constructor; simpl; intuition discriminate.
Qed.

(** * Further properties of the marshallers and of derivation *)

(** ** Bulk decoding against element-wise decoding *)

(** X3: for every marshaller and every array, [from_arrow_array] returns
    [[from_arrow(sub) for sub in arrow]], through [to_pylist] or not, and
    raises whenever that comprehension raises, with the same exception. *)
Theorem from_arrow_array_elementwise (m : ArrowMarshaller) (a : Array) :
  from_arrow_array m a
  = mapM (from_arrow m) (map PyArrowScalar (array_values a)).
Proof.
  rewrite mapM_map.
  destruct m as [t T|e|k v|c fs]; unfold from_arrow_array, to_pylist;
    try (rewrite mapM_map; reflexivity).
  - reflexivity.
  - destruct (is_basic e) eqn:He; [|now rewrite mapM_map].
    apply mapM_ext. intros s _. cbn [from_arrow]. now rewrite He.
Qed.

(** ** Round trips on flat shapes, at concrete values *)

Lemma round_trip_flat_witness :
  (s <- to_arrow PersonMarshaller (person "Ada" 36 true) ;;
   from_arrow PersonMarshaller (PyArrowScalar s))
  = Ok (person "Ada" 36 true).
Proof.
  apply round_trip_flat.
  - simpl. split; repeat constructor; simpl; intuition discriminate.
  - simpl. repeat split; lia.
Defined.

Lemma array_round_trip_flat_witness :
  (a <- to_arrow_array (ListArrowMarshaller fa.int64)
          [PyList [PyInt 1; PyInt 2; PyInt 3]; PyList []] ;;
   from_arrow_array (ListArrowMarshaller fa.int64) a)
  = Ok [PyList [PyInt 1; PyInt 2; PyInt 3]; PyList []].
Proof.
  apply array_round_trip_flat.
  - exact I.
  - constructor; [|constructor; [|constructor]]; simpl.
    + repeat (constructor; [simpl; lia|]). constructor.
    + constructor.
Defined.

(** ** What derivation raises, and when it returns *)

(** X4: what derivation raises.  When [derive_arrow_marshaller] raises, the
    exception is the [TypeError] of [issubclass] and derivation looked at a
    parameterised special form (an origin that is no class); or it is the
    [IndexError] of [get_args(cls)[0]] or [get_args(cls)[1]] and derivation
    looked at a generic over a sequence without arguments or over a mapping
    with fewer than two; or it is the [NotImplementedError] of the last
    line.  It raises nothing else: the assertion of
    [StructArrowMarshaller.__init__] never fails. *)
Theorem derive_raises_only (cls : PyType) :
  forall e, derive_arrow_marshaller cls = Raise e ->
    (e = TypeError /\
     exists p args, In (special_alias p args) (derivation_reads cls)) \/
    (e = IndexError /\
     exists o args,
       In (generic_alias o args) (derivation_reads cls) /\
       (issubclass_Sequence o = true /\ args = [] \/
        issubclass_Sequence o = false /\ issubclass_Mapping o = true /\
        (List.length args < 2)%nat)) \/
    (exists msg, e = NotImplementedError msg).
Proof.
  induction cls as [t|n fs IH|o args IH|c|p args _] using PyType_ind';
    intros e H.
  - destruct t; discriminate.
  - cbn [derive_arrow_marshaller] in H.
    apply bind_Raise_inv in H as [H|(ms & _ & H)]; [|discriminate].
    apply derive_field_Raise in H as (f & Hin & Hmd & H).
    rewrite Forall_forall in IH.
    assert (Hsub : forall t, In t (derivation_reads (field_type f)) ->
                             In t (derivation_reads (dataclass n fs)))
      by (intros t Ht; apply derivation_reads_fields; right; eauto).
    destruct (IH f Hin e H)
      as [(-> & q & a & Hq)|[(-> & o & a & Ho & Hfew)|(msg & ->)]].
    + left. split; [reflexivity|]. exists q, a. now apply Hsub.
    + right; left. split; [reflexivity|]. exists o, a.
      split; [now apply Hsub | exact Hfew].
    + right; right. eauto.
  - cbn [derive_arrow_marshaller] in H.
    destruct (issubclass_Sequence o) eqn:Hs.
    + destruct args as [|a0 rest].
      * injection H as <-. right; left. split; [reflexivity|].
        exists o, []. split; [now left | now left].
      * apply bind_Raise_inv in H as [H|(m & _ & H)]; [|discriminate].
        inversion IH as [|? ? IH0 _]; subst.
        assert (Hsub : forall t, In t (derivation_reads a0) ->
                  In t (derivation_reads (generic_alias o (a0 :: rest))))
          by (intros t Ht; cbn [derivation_reads]; rewrite Hs; now right).
        destruct (IH0 e H)
          as [(-> & q & a & Hq)|[(-> & o' & a & Ho & Hfew)|(msg & ->)]].
        -- left. split; [reflexivity|]. exists q, a. now apply Hsub.
        -- right; left. split; [reflexivity|]. exists o', a.
           split; [now apply Hsub | exact Hfew].
        -- right; right. eauto.
    + destruct (issubclass_Mapping o) eqn:Hm;
        [|injection H as <-; right; right; eauto].
      destruct args as [|a0 rest].
      * injection H as <-. right; left. split; [reflexivity|].
        exists o, []. split; [now left|]. right.
        split; [exact Hs | split; [exact Hm | cbn; lia]].
      * inversion IH as [|? ? IH0 IH']; subst.
        assert (Hsub0 : forall t, In t (derivation_reads a0) ->
                  In t (derivation_reads (generic_alias o (a0 :: rest)))).
        { intros t Ht. cbn [derivation_reads]. rewrite Hs, Hm. right.
          destruct rest; [exact Ht | apply in_or_app; now left]. }
        apply bind_Raise_inv in H as [H|(k & _ & H)].
        -- destruct (IH0 e H)
             as [(-> & q & a & Hq)|[(-> & o' & a & Ho & Hfew)|(msg & ->)]].
           ++ left. split; [reflexivity|]. exists q, a. now apply Hsub0.
           ++ right; left. split; [reflexivity|]. exists o', a.
              split; [now apply Hsub0 | exact Hfew].
           ++ right; right. eauto.
        -- destruct rest as [|a1 rest].
           ++ injection H as <-. right; left. split; [reflexivity|].
              exists o, [a0]. split; [now left|]. right.
              split; [exact Hs | split; [exact Hm | cbn; lia]].
           ++ inversion IH' as [|? ? IH1 _]; subst.
              apply bind_Raise_inv in H as [H|(v & _ & H)]; [|discriminate].
              assert (Hsub1 : forall t, In t (derivation_reads a1) ->
                        In t (derivation_reads
                                (generic_alias o (a0 :: a1 :: rest)))).
              { intros t Ht. cbn [derivation_reads]. rewrite Hs, Hm. right.
                apply in_or_app. now right. }
              destruct (IH1 e H)
                as [(-> & q & a & Hq)|[(-> & o' & a & Ho & Hfew)|(msg & ->)]].
              ** left. split; [reflexivity|]. exists q, a. now apply Hsub1.
              ** right; left. split; [reflexivity|]. exists o', a.
                 split; [now apply Hsub1 | exact Hfew].
              ** right; right. eauto.
  - injection H as <-. right; right. eauto.
  - injection H as <-. left. split; [reflexivity|]. exists p, args. now left.
Qed.

Lemma derive_raises_only_witness :
  let optional_int :=
    special_alias "typing.Optional[int]"
      [builtin_class py_int; builtin_class py_NoneType] in
  let cls := generic_alias list_class [optional_int] in
  (TypeError = TypeError /\
   exists p args, In (special_alias p args) (derivation_reads cls)) \/
  (TypeError = IndexError /\
   exists o args,
     In (generic_alias o args) (derivation_reads cls) /\
     (issubclass_Sequence o = true /\ args = [] \/
      issubclass_Sequence o = false /\ issubclass_Mapping o = true /\
      (List.length args < 2)%nat)) \/
  (exists msg, TypeError = NotImplementedError msg).
Proof.
  cbv zeta.
  apply (derive_raises_only
           (generic_alias list_class
              [special_alias "typing.Optional[int]"
                 [builtin_class py_int; builtin_class py_NoneType]])).
  reflexivity.
Defined.

Lemma derivable_fields (n : string) (fs : list Field) :
  derivable (dataclass n fs) <->
  Forall (fun f => field_metadata f <> None \/ derivable (field_type f)) fs.
Proof.
  cbn [derivable]. induction fs as [|[fn t md] fs IH].
  - split; [constructor | trivial].
  - split.
    + intros [H Hfs]. constructor; [exact H | now apply IH].
    + intros H. inversion H; subst. split; [assumption | now apply IH].
Qed.

(** X5: [derive_arrow_marshaller] returns a marshaller exactly on the
    derivable types: a builtin class; a dataclass whose every field has an
    override or a derivable type; a generic on a sequence origin with a
    derivable first argument, or on a mapping origin with two derivable
    first arguments.  Further arguments of a generic are never looked at. *)
Theorem derive_returns_iff (cls : PyType) :
  (exists m, derive_arrow_marshaller cls = Ok m) <-> derivable cls.
Proof.
  induction cls as [t|n fs IH|o args IH|c|p args _] using PyType_ind'.
  - split; [intros _; exact I|]. intros _. destruct t; eexists; reflexivity.
  - rewrite derivable_fields. cbn [derive_arrow_marshaller].
    assert (Hf : forall f, In f fs ->
               ((exists y, (m <- derive_arrow_marshaller_for_field f ;;
                            Ok (field_name f, m)) = Ok y) <->
                (field_metadata f <> None \/ derivable (field_type f)))).
    { intros [fn t md] Hin. rewrite Forall_forall in IH.
      specialize (IH _ Hin). cbn in IH. cbn. destruct md as [m|].
      - split; [intros _; left; discriminate | intros _; eexists; reflexivity].
      - split.
        + intros [y H]. apply bind_Ok_inv in H as (m & Hm & _).
          right. apply IH. eauto.
        + intros [H|H]; [now destruct H|]. apply IH in H as [m Hm].
          rewrite Hm. eexists. reflexivity. }
    split.
    + intros [m H]. apply bind_Ok_inv in H as (ms & Hms & _).
      assert (Hall := proj1 (mapM_Ok_exists _ fs) (ex_intro _ ms Hms)).
      rewrite Forall_forall in *. intros f Hin. apply Hf; auto.
    + intros H.
      assert (Hall : Forall (fun f => exists y,
                         (m <- derive_arrow_marshaller_for_field f ;;
                          Ok (field_name f, m)) = Ok y) fs).
      { rewrite Forall_forall in *. intros f Hin. apply Hf; auto. }
      apply mapM_Ok_exists in Hall as [ms Hms]. rewrite Hms.
      eexists. reflexivity.
  - cbn [derive_arrow_marshaller derivable].
    destruct (issubclass_Sequence o).
    + destruct args as [|a0 rest]; [split; [intros [m H]; discriminate | tauto]|].
      inversion IH as [|? ? IH0 _]; subst. rewrite <- IH0. split.
      * intros [m H]. apply bind_Ok_inv in H as (e & He & _). eauto.
      * intros [e He]. rewrite He. eexists. reflexivity.
    + destruct (issubclass_Mapping o);
        [|split; [intros [m H]; discriminate | tauto]].
      destruct args as [|a0 [|a1 rest]].
      * split; [intros [m H]; discriminate | tauto].
      * split; [|tauto]. intros [m H].
        apply bind_Ok_inv in H as (k & _ & H). discriminate.
      * inversion IH as [|? ? IH0 IH']; subst.
        inversion IH' as [|? ? IH1 _]; subst.
        rewrite <- IH0, <- IH1. split.
        -- intros [m H]. apply bind_Ok_inv in H as (k & Hk & H).
           apply bind_Ok_inv in H as (v & Hv & _). eauto.
        -- intros [[k Hk] [v Hv]]. rewrite Hk, Hv. eexists. reflexivity.
  - split; [intros [m H]; discriminate | intros []].
  - split; [intros [m H]; discriminate | intros []].
Qed.

(** ** The fields of a derived struct marshaller *)

Lemma sdict_set_fresh {A} (d : list (string * A)) (k : string) (v : A) :
  ~ In k (map fst d) -> sdict_set d k v = d ++ [(k, v)].
Proof.
  induction d as [|[k' v'] d IH]; intros H; simpl; [reflexivity|].
  destruct (String.eqb k' k) eqn:E.
  - apply String.eqb_eq in E. subst. exfalso. apply H. now left.
  - rewrite IH; [reflexivity|]. intros Hin. apply H. now right.
Qed.

Lemma sdict_set_keys {A} (d : list (string * A)) (k : string) (v : A) :
  In k (map fst d) -> map fst (sdict_set d k v) = map fst d.
Proof.
  induction d as [|[k' v'] d IH]; intros H; [contradiction|]. simpl.
  destruct (String.eqb k' k) eqn:E; [reflexivity|].
  simpl. f_equal. apply IH. destruct H as [H|H]; [|assumption].
  simpl in H. subst. now rewrite String.eqb_refl in E.
Qed.

Lemma sdict_set_NoDup {A} (d : list (string * A)) (k : string) (v : A) :
  NoDup (map fst d) -> NoDup (map fst (sdict_set d k v)).
Proof.
  intros H. destruct (in_dec string_dec k (map fst d)) as [Hin|Hin].
  - now rewrite sdict_set_keys.
  - rewrite sdict_set_fresh, map_app by assumption. simpl.
    apply NoDup_app; [assumption | repeat constructor; intros [] |].
    intros a Ha [<-|[]]. contradiction.
Qed.

Lemma sdict_of_NoDup {A} (l : list (string * A)) :
  NoDup (map fst (sdict_of l)).
Proof.
  unfold sdict_of.
  assert (H : forall d, NoDup (map fst d) ->
                NoDup (map fst (fold_left
                                  (fun d kv => sdict_set d (fst kv) (snd kv))
                                  l d))).
  { induction l as [|[k v] l IH]; intros d Hd; simpl; [assumption|].
    apply IH. now apply sdict_set_NoDup. }
  apply H. constructor.
Qed.

Lemma sdict_of_distinct {A} (l : list (string * A)) :
  NoDup (map fst l) -> sdict_of l = l.
Proof.
  unfold sdict_of.
  assert (H : forall d, NoDup (map fst (d ++ l)) ->
                fold_left (fun d kv => sdict_set d (fst kv) (snd kv)) l d
                = d ++ l).
  { induction l as [|[k v] l IH]; intros d Hd; simpl.
    - now rewrite app_nil_r.
    - rewrite sdict_set_fresh.
      + rewrite IH; rewrite <- app_assoc; [reflexivity | assumption].
      + rewrite map_app in Hd. simpl in Hd.
        apply NoDup_remove_2 in Hd. intros Hin. apply Hd.
        apply in_or_app. now left. }
  intros Hl. now apply (H []).
Qed.

(** X6: the [fields] of a struct marshaller derived from a dataclass have
    pairwise distinct names; and when the names of the dataclass's fields
    are distinct (as they are in Python), [fields] lists them in declaration
    order, each with the marshaller derived for that field, so that
    [arrow_dtype] is the struct of the fields' names and data types in
    declaration order. *)
Theorem derive_struct_fields (name : string) (fs : list Field)
    (m : ArrowMarshaller) :
  derive_arrow_marshaller (dataclass name fs) = Ok m ->
  exists fields,
    m = StructArrowMarshaller name fields /\
    NoDup (map fst fields) /\
    (NoDup (map field_name fs) ->
     Forall2 (fun f nm => fst nm = field_name f /\
                          derive_arrow_marshaller_for_field f = Ok (snd nm))
       fs fields /\
     arrow_dtype m
     = pa_struct (map (fun nm => (fst nm, arrow_dtype (snd nm))) fields)).
Proof.
  cbn [derive_arrow_marshaller]. intros H.
  apply bind_Ok_inv in H as (ms & Hms & H). injection H as <-.
  exists (sdict_of ms). split; [reflexivity|].
  split; [apply sdict_of_NoDup|]. intros Hnd.
  apply mapM_Ok_Forall2 in Hms.
  assert (Hnames : map fst ms = map field_name fs).
  { clear Hnd. induction Hms as [|f nm fs ms Hf _ IH]; [reflexivity|].
    apply bind_Ok_inv in Hf as (m & _ & Hf). injection Hf as <-.
    simpl. now rewrite IH. }
  rewrite sdict_of_distinct by now rewrite Hnames.
  split; [|reflexivity].
  revert Hms. apply Forall2_impl. intros f nm Hf.
  apply bind_Ok_inv in Hf as (m & Hm & Hf). injection Hf as <-. auto.
Qed.

Lemma derive_struct_fields_witness :
  exists fields,
    PersonMarshaller = StructArrowMarshaller "Person" fields /\
    NoDup (map fst fields) /\
    (NoDup (map field_name
              [mkField "name" (builtin_class py_str) None;
               mkField "age" (builtin_class py_int) None;
               mkField "gender" (builtin_class py_bool) None]) ->
     Forall2 (fun f nm => fst nm = field_name f /\
                          derive_arrow_marshaller_for_field f = Ok (snd nm))
       [mkField "name" (builtin_class py_str) None;
        mkField "age" (builtin_class py_int) None;
        mkField "gender" (builtin_class py_bool) None] fields /\
     arrow_dtype PersonMarshaller
     = pa_struct (map (fun nm => (fst nm, arrow_dtype (snd nm))) fields)).
Proof.
  apply (derive_struct_fields "Person"
           [mkField "name" (builtin_class py_str) None;
            mkField "age" (builtin_class py_int) None;
            mkField "gender" (builtin_class py_bool) None]).
  reflexivity.
Defined.


(** ** Derivation followed by a round trip *)

Lemma plain_type_derives (cls : PyType) :
  plain_type cls ->
  exists m, derive_arrow_marshaller cls = Ok m /\ plain m.
Proof.
  induction cls as [t|n fs _|o args IH|c|p args _] using PyType_ind';
    intros H.
  - destruct t; eexists; split; try reflexivity; exact I.
  - contradiction.
  - cbn [plain_type derive_arrow_marshaller] in *.
    destruct (issubclass_Sequence o).
    + destruct args as [|a0 rest]; [contradiction|].
      inversion IH as [|? ? IH0 _]; subst.
      destruct (IH0 H) as (e & He & Hp). rewrite He.
      eexists. split; [reflexivity | exact Hp].
    + destruct (issubclass_Mapping o); [|contradiction].
      destruct args as [|a0 [|a1 rest]]; try contradiction.
      inversion IH as [|? ? IH0 IH']; subst.
      inversion IH' as [|? ? IH1 _]; subst.
      destruct H as [H0 H1].
      destruct (IH0 H0) as (k & Hk & Hpk).
      destruct (IH1 H1) as (v & Hv & Hpv). rewrite Hk, Hv.
      eexists. split; [reflexivity | split; assumption].
  - contradiction.
  - contradiction.
Qed.

Lemma flat_type_derives (cls : PyType) :
  flat_type cls ->
  exists m, derive_arrow_marshaller cls = Ok m /\ flat m.
Proof.
  induction cls as [t|n fs _|o args IH|c|p args _] using PyType_ind';
    intros H.
  - destruct t; eexists; split; try reflexivity; exact I.
  - destruct H as [Hnd Hfs].
    assert (Hall : exists ms,
               Forall2 (fun f nm =>
                          (m <- derive_arrow_marshaller_for_field f ;;
                           Ok (field_name f, m)) = Ok nm /\
                          fst nm = field_name f /\ plain (snd nm)) fs ms).
    { clear Hnd. induction Hfs as [|[fn t md] fs [Hmd Hp] _ IHfs];
        [exists []; constructor|].
      destruct IHfs as [ms Hms]. cbn in Hmd, Hp. subst md.
      destruct (plain_type_derives t Hp) as (m & Hm & Hpm).
      exists ((fn, m) :: ms). constructor; [|assumption].
      cbn. rewrite Hm. auto. }
    destruct Hall as [ms Hms].
    assert (Hnames : map fst ms = map field_name fs).
    { clear Hnd Hfs. induction Hms as [|f nm fs ms (_ & Hn & _) _ IHms];
        [reflexivity|]. simpl. now rewrite Hn, IHms. }
    exists (StructArrowMarshaller n ms). split.
    + cbn [derive_arrow_marshaller].
      replace (mapM _ fs) with (Ok ms).
      * cbn [bind]. rewrite sdict_of_distinct; [reflexivity|].
        now rewrite Hnames.
      * symmetry. apply mapM_Ok_Forall2.
        revert Hms. apply Forall2_impl. tauto.
    + split; [now rewrite Hnames|].
      clear - Hms. induction Hms as [|f nm fs ms (_ & _ & Hp) _ IHms];
        constructor; assumption.
  - cbn [flat_type derive_arrow_marshaller] in *.
    destruct (issubclass_Sequence o).
    + destruct args as [|a0 rest]; [contradiction|].
      inversion IH as [|? ? IH0 _]; subst.
      destruct (IH0 H) as (e & He & Hf). rewrite He.
      eexists. split; [reflexivity | exact Hf].
    + destruct (issubclass_Mapping o); [|contradiction].
      destruct args as [|a0 [|a1 rest]]; try contradiction.
      destruct H as [H0 H1].
      destruct (plain_type_derives a0 H0) as (k & Hk & Hpk).
      destruct (plain_type_derives a1 H1) as (v & Hv & Hpv).
      rewrite Hk, Hv. eexists. split; [reflexivity | split; assumption].
  - contradiction.
  - contradiction.
Qed.

(** X7: derivation followed by the round trip.  For a type without
    overrides in which no dataclass lies below a mapping or below another
    dataclass, [derive_arrow_marshaller] returns a marshaller, and with it
    [from_arrow(to_arrow(v))] returns [v] for every conforming value [v] and
    [from_arrow_array(to_arrow_array(xs))] returns [xs] for every sequence
    of conforming values. *)
Theorem derived_round_trip (cls : PyType) :
  flat_type cls ->
  exists m,
    derive_arrow_marshaller cls = Ok m /\
    (forall v, conforms m v ->
       (s <- to_arrow m v ;; from_arrow m (PyArrowScalar s)) = Ok v) /\
    (forall xs, Forall (conforms m) xs ->
       (a <- to_arrow_array m xs ;; from_arrow_array m a) = Ok xs).
Proof.
  intros H. destruct (flat_type_derives cls H) as (m & Hm & Hf).
  exists m. split; [assumption|]. split.
  - intros v Hv. destruct (flat_round_trip m Hf v Hv) as (s & H1 & H2).
    now rewrite H1.
  - intros xs Hxs.
    assert (Hall : exists ss,
               Forall2 (fun x s => to_arrow m x = Ok s /\
                                   from_arrow m (PyArrowScalar s) = Ok x)
                 xs ss).
    { induction Hxs as [|x xs Hx _ IH]; [exists []; constructor|].
      destruct IH as [ss Hss].
      destruct (flat_round_trip m Hf x Hx) as (s & H1 & H2).
      exists (s :: ss). constructor; auto. }
    destruct Hall as [ss Hss].
    rewrite (to_arrow_array_Ok m xs ss).
    2:{ apply mapM_Ok_Forall2. revert Hss. apply Forall2_impl. tauto. }
    cbn [bind].
    assert (Hdec : mapM (fun s => from_arrow m (PyArrowScalar s)) ss = Ok xs).
    { apply mapM_Ok_Forall2. apply Forall2_flip.
      revert Hss. apply Forall2_impl. tauto. }
    clear - Hdec.
    destruct m as [t T|e|k v|c fs]; unfold from_arrow_array, to_pylist;
      cbn [array_values]; try (rewrite mapM_map; exact Hdec).
    + exact Hdec.
    + destruct (is_basic e) eqn:He; [|rewrite mapM_map; exact Hdec].
      rewrite <- Hdec. apply mapM_ext. intros s _.
      cbn [from_arrow]. now rewrite He.
Qed.

Lemma derived_round_trip_witness :
  exists m,
    derive_arrow_marshaller Person = Ok m /\
    (forall v, conforms m v ->
       (s <- to_arrow m v ;; from_arrow m (PyArrowScalar s)) = Ok v) /\
    (forall xs, Forall (conforms m) xs ->
       (a <- to_arrow_array m xs ;; from_arrow_array m a) = Ok xs).
Proof.
  apply derived_round_trip.
  split; repeat constructor; simpl; intuition discriminate.
Defined.

(** ** What encoding raises *)

Lemma convert_primitive_raises (T : DataType) (v : PyVal) (e : Exception) :
  convert_primitive T v = Raise e -> conversion_error e.
Proof.
  unfold convert_primitive, conversion_error.
  destruct T; simpl; destruct v;
    repeat match goal with
           | |- context [if ?c then _ else _] => destruct c
           end;
    intros H; try discriminate; injection H as <-; auto.
Qed.

Lemma convert_raises (T : DataType) :
  forall v e, convert T v = Raise e -> conversion_error e.
Proof.
  assert (Hs : forall T s e,
             (if DataType_eqb (type_of s) T then Ok s else Raise ArrowInvalid)
             = Raise e -> conversion_error e).
  { intros T0 s e H. destruct (DataType_eqb (type_of s) T0);
      [discriminate|]. injection H as <-. now left. }
  assert (Hty : forall e, @Raise Scalar ArrowTypeError = Raise e ->
                          conversion_error e).
  { intros e H. injection H as <-. right. now left. }
  assert (Hkeys : forall es e, check_map_keys es = Raise e ->
                               conversion_error e).
  { intros es e. unfold check_map_keys. destruct (forallb _ es);
      [discriminate|]. intros H. injection H as <-. now left. }
  induction T using DataType_ind'; intros v e;
    try (destruct v; cbn [convert]; intros H;
         solve [ discriminate
               | eapply Hs; eassumption
               | eapply convert_primitive_raises; eassumption ]).
  - destruct v; cbn [convert]; intros H;
      try solve [discriminate | eapply Hs; eassumption | now apply Hty];
      (apply bind_Raise_inv in H as [H|(vs & _ & H)]; [|discriminate];
       apply mapM_Raise_inv in H as (x & _ & H); eapply IHT; eassumption).
  - assert (Hentry : forall kx e,
               (k <- convert T1 (fst kx) ;; x <- convert T2 (snd kx) ;;
                Ok (k, x)) = Raise e -> conversion_error e).
    { intros kx e0 H.
      apply bind_Raise_inv in H as [H|(k & _ & H)]; [eapply IHT1; eassumption|].
      apply bind_Raise_inv in H as [H|(x & _ & H)];
        [eapply IHT2; eassumption | discriminate]. }
    destruct v; cbn [convert]; intros H;
      try solve [discriminate | eapply Hs; eassumption | now apply Hty];
      (apply bind_Raise_inv in H as [H|(es & _ & H)];
       [ apply mapM_Raise_inv in H as (x & _ & H)
       | apply bind_Raise_inv in H as [H|(u & _ & H)];
         [eapply Hkeys; eassumption | discriminate] ]).
    + apply bind_Raise_inv in H as [H|(kx & _ & H)];
        [|eapply Hentry; eassumption].
      unfold as_pair in H. destruct x as [| | | | | | |[|a [|b [|c l']]]| | |];
        try discriminate; injection H as <-; unfold conversion_error; auto.
    + apply bind_Raise_inv in H as [H|(kx & _ & H)];
        [|eapply Hentry; eassumption].
      unfold as_pair in H. destruct x as [| | | | | | |[|a [|b [|c l']]]| | |];
        try discriminate; injection H as <-; unfold conversion_error; auto.
    + eapply Hentry; eassumption.
  - destruct v; cbn [convert]; intros E;
      try solve [discriminate | eapply Hs; eassumption | now apply Hty].
    apply bind_Raise_inv in E as [E|(its & _ & E)]; [|discriminate].
    induction H as [|[n t] fs Ht _ IH]; [discriminate|].
    apply bind_Raise_inv in E as [E|(x & _ & E)]; [eapply Ht; eassumption|].
    apply bind_Raise_inv in E as [E|(its & _ & E)]; [auto | discriminate].
Qed.

Lemma as_py_raises (s : Scalar) :
  forall e, as_py s = Raise e -> e = ValueError.
Proof.
  induction s as [T|b|T z|T f|x|b|E vs IH|K V es IH|its IH] using Scalar_ind';
    intros e H; try discriminate; cbn [as_py] in H.
  - apply bind_Raise_inv in H as [H|(l & _ & H)]; [|discriminate].
    apply mapM_Raise_inv in H as (x & Hin & H).
    rewrite Forall_forall in IH. now apply (IH x Hin).
  - apply bind_Raise_inv in H as [H|(l & _ & H)]; [|discriminate].
    apply mapM_Raise_inv in H as (kv & Hin & H).
    rewrite Forall_forall in IH. destruct (IH kv Hin) as [IHk IHv].
    apply bind_Raise_inv in H as [H|(k & _ & H)]; [now apply IHk|].
    apply bind_Raise_inv in H as [H|(x & _ & H)];
      [now apply IHv | discriminate].
  - destruct (duplicated (map fst its)); [now injection H as <-|].
    apply bind_Raise_inv in H as [H|(d & _ & H)]; [|discriminate].
    apply mapM_Raise_inv in H as (nv & Hin & H).
    rewrite Forall_forall in IH.
    apply bind_Raise_inv in H as [H|(x & _ & H)];
      [now apply (IH nv Hin) | discriminate].
Qed.

Lemma py_iter_raises (v : PyVal) :
  (forall e, py_iter v = Raise e -> e = TypeError) /\
  (forall it step e, py_iter v = Ok it -> In step it -> step = Raise e ->
                     e = ValueError).
Proof.
  split.
  - intros e H. destruct v as [| | | | | | | | | |s]; cbn in H;
      try discriminate; try (now injection H as <-).
    destruct s as [[]| | | | | | | |]; cbn in H; try discriminate;
      now injection H as <-.
  - intros it step e H Hin Hstep.
    destruct v as [| | | | | | | | | |s]; cbn in H; try discriminate;
      try (injection H as <-; apply in_map_iff in Hin as (x & Hx & _);
           subst; discriminate).
    destruct s as [[]| | | | | | | |]; cbn in H; try discriminate;
      injection H as <-;
      try (apply in_map_iff in Hin as (x & Hx & _); subst; discriminate);
      try contradiction.
    apply in_map_iff in Hin as (kv & Hx & _). rewrite Hstep in Hx.
    apply bind_Raise_inv in Hx as [H|(k & _ & H)];
      [now apply (as_py_raises (fst kv))|].
    apply bind_Raise_inv in H as [H|(x & _ & H)];
      [now apply (as_py_raises (snd kv)) | discriminate].
Qed.

Lemma to_arrow_raises (m : ArrowMarshaller) :
  forall py e, to_arrow m py = Raise e -> encode_error e.
Proof.
  assert (Hconv : forall py T e, pa_scalar py T = Raise e -> encode_error e).
  { intros py T e H. left. eapply convert_raises. exact H. }
  assert (Hassert : forall (test : DataType -> bool) T (c : result Scalar) e,
             test T = true ->
             (forall s, c = Ok s -> type_of s = T) ->
             (s <- c ;; _ <- assert (test (type_of s)) ;; Ok s) = Raise e ->
             c = Raise e).
  { intros test T c e Ht Hc H.
    apply bind_Raise_inv in H as [H|(s & Hs & H)]; [assumption|].
    rewrite (Hc s Hs), Ht in H. discriminate. }
  induction m as [t T|el IH|k v _ _|c fs _] using ArrowMarshaller_ind';
    intros py e H.
  - now apply (Hconv py T).
  - cbn [to_arrow] in H.
    apply (Hassert _ (arrow_dtype (ListArrowMarshaller el))) in H;
      [|reflexivity|].
    + destruct (is_basic el); [eapply Hconv; eassumption|].
      apply bind_Raise_inv in H as [H|(subs & Hsubs & H)].
      * right. left. now apply (proj1 (py_iter_raises py)).
      * apply bind_Raise_inv in H as [H|(l & _ & H)];
          [|eapply Hconv; eassumption].
        apply mapM_Raise_inv in H as (step & Hin & H).
        apply bind_Raise_inv in H as [H|(x & _ & H)]; [|now apply (IH x)].
        right. right. right.
        now apply (proj2 (py_iter_raises py) subs step e Hsubs Hin).
    + intros s Hs. destruct (is_basic el).
      * now apply pa_scalar_type in Hs.
      * apply bind_Ok_inv in Hs as (subs & _ & Hs).
        apply bind_Ok_inv in Hs as (l & _ & Hs).
        now apply pa_scalar_type in Hs.
  - cbn [to_arrow] in H.
    apply (Hassert _ (arrow_dtype (MapArrowMarshaller k v))) in H;
      [eapply Hconv; eassumption | reflexivity |].
    intros s Hs. now apply pa_scalar_type in Hs.
  - cbn [to_arrow] in H.
    apply bind_Raise_inv in H as [H|(d & _ & H)].
    + destruct py; cbn in H; try discriminate; injection H as <-;
        right; right; now left.
    + apply (Hassert _ (arrow_dtype (StructArrowMarshaller c fs))) in H;
        [eapply Hconv; eassumption | reflexivity |].
      intros s Hs. now apply pa_scalar_type in Hs.
Qed.

(** X8: encoding raises only the converter's exceptions ([ArrowInvalid],
    [ArrowTypeError], [OverflowError]), [TypeError] from iterating a value
    that is not iterable, [AttributeError] from a value without [__dict__]
    and [ValueError] from [as_py()].  In particular the [isinstance]
    assertions of [to_arrow] and [to_arrow_array] never fail. *)
Theorem encoding_raises_only (m : ArrowMarshaller) (py : PyVal)
    (pys : list PyVal) (e : Exception) :
  (to_arrow m py = Raise e -> encode_error e /\ e <> AssertionError) /\
  (to_arrow_array m pys = Raise e -> encode_error e /\ e <> AssertionError).
Proof.
  assert (Hne : encode_error e -> encode_error e /\ e <> AssertionError).
  { intros H. split; [assumption|]. intros ->.
    destruct H as [[H|[H|H]]|[H|[H|H]]]; discriminate. }
  split; intros H; apply Hne.
  - now apply (to_arrow_raises m py).
  - assert (Harr : forall py T, pa_array py T = Raise e -> encode_error e).
    { intros py0 T E. unfold pa_array in E.
      apply bind_Raise_inv in E as [E|(vs & _ & E)]; [|discriminate].
      apply mapM_Raise_inv in E as (x & _ & E). left.
      eapply convert_raises. exact E. }
    assert (Heach : (l <- mapM (to_arrow m) pys ;;
                     pa_array (map PyArrowScalar l) (arrow_dtype m))
                    = Raise e -> encode_error e).
    { intros E. apply bind_Raise_inv in E as [E|(l & _ & E)];
        [|eapply Harr; eassumption].
      apply mapM_Raise_inv in E as (x & _ & E).
      now apply (to_arrow_raises m x). }
    assert (Hassert : forall (test : DataType -> bool) (c : result Array),
               test (arrow_dtype m) = true ->
               (forall a, c = Ok a -> array_type a = arrow_dtype m) ->
               (a <- c ;; _ <- assert (test (array_type a)) ;; Ok a)
               = Raise e -> c = Raise e).
    { intros test c Ht Hc E.
      apply bind_Raise_inv in E as [E|(a & Ha & E)]; [assumption|].
      rewrite (Hc a Ha), Ht in E. discriminate. }
    assert (Heach_type : forall a,
               (l <- mapM (to_arrow m) pys ;;
                pa_array (map PyArrowScalar l) (arrow_dtype m)) = Ok a ->
               array_type a = arrow_dtype m).
    { intros a E. apply bind_Ok_inv in E as (l & _ & E).
      now apply pa_array_type in E. }
    destruct m as [t T|el|k v|c fs]; unfold to_arrow_array in H.
    + eapply Harr; eassumption.
    + apply Hassert in H; [|reflexivity|].
      * destruct (is_basic el); [eapply Harr; eassumption | now apply Heach].
      * intros a Ha. destruct (is_basic el);
          [now apply pa_array_type in Ha | now apply Heach_type].
    + apply Hassert in H; [|reflexivity|].
      * destruct (is_basic k && is_basic v);
          [eapply Harr; eassumption | now apply Heach].
      * intros a Ha. destruct (is_basic k && is_basic v);
          [now apply pa_array_type in Ha | now apply Heach_type].
    + apply Hassert in H; [now apply Heach | reflexivity | exact Heach_type].
Qed.

Lemma encoding_raises_only_witness :
  (encode_error ArrowInvalid /\ ArrowInvalid <> AssertionError) /\
  (encode_error AttributeError /\ AttributeError <> AssertionError).
Proof.
  split.
  - apply (proj1 (encoding_raises_only fa.int8 (PyInt 300) [] ArrowInvalid)).
    reflexivity.
  - apply (proj2 (encoding_raises_only PersonMarshaller PyNone [PyInt 3]
                    AttributeError)).
    reflexivity.
Defined.

(** ** None, nulls and empty containers *)

Lemma convert_None (T : DataType) : convert T PyNone = Ok (Null T).
Proof. destruct T; reflexivity. Qed.

(** X9: [None] and nulls.  A basic marshaller, and a list marshaller over a
    basic element, encode [None] as a null and decode a null as [None].  A
    list marshaller over a composite element raises [TypeError] on both.  A
    map marshaller encodes [None] as a null map, which it decodes as the
    empty dict when both children are basic and on which it raises
    [TypeError] otherwise.  A struct marshaller raises [AttributeError] on
    [None]. *)
Theorem none_and_null :
  (forall t T,
      to_arrow (BasicTypeArrowMarshaller t T) PyNone = Ok (Null T) /\
      from_arrow (BasicTypeArrowMarshaller t T) (PyArrowScalar (Null T))
      = Ok PyNone) /\
  (forall e,
      let T := arrow_dtype (ListArrowMarshaller e) in
      to_arrow (ListArrowMarshaller e) PyNone
      = (if is_basic e then Ok (Null T) else Raise TypeError) /\
      from_arrow (ListArrowMarshaller e) (PyArrowScalar (Null T))
      = (if is_basic e then Ok PyNone else Raise TypeError)) /\
  (forall k v,
      let T := arrow_dtype (MapArrowMarshaller k v) in
      to_arrow (MapArrowMarshaller k v) PyNone = Ok (Null T) /\
      from_arrow (MapArrowMarshaller k v) (PyArrowScalar (Null T))
      = (if is_basic k && is_basic v then Ok (PyDict [])
         else Raise TypeError)) /\
  (forall c fs,
      to_arrow (StructArrowMarshaller c fs) PyNone = Raise AttributeError).
Proof.
  split; [|split; [|split]].
  - intros t T. split; [|reflexivity].
    cbn [to_arrow arrow_dtype]. apply convert_None.
  - intros e T. split.
    + cbn [to_arrow]. destruct (is_basic e); reflexivity.
    + cbn [from_arrow]. destruct (is_basic e); reflexivity.
  - intros k v T. split.
    + rewrite to_arrow_map. apply convert_None.
    + rewrite from_arrow_map.
      destruct (is_basic k && is_basic v); reflexivity.
  - reflexivity.
Qed.

(** X10: empty input.  Whatever the children — also those on which other
    values fail — a list marshaller takes the empty list to the empty list
    scalar and back, a map marshaller the empty dict to the empty map
    scalar and back, and every marshaller the empty sequence to the empty
    array of its data type and back. *)
Theorem empty_round_trips :
  (forall e,
      to_arrow (ListArrowMarshaller e) (PyList [])
      = Ok (ListScalar (arrow_dtype e) []) /\
      from_arrow (ListArrowMarshaller e)
        (PyArrowScalar (ListScalar (arrow_dtype e) []))
      = Ok (PyList [])) /\
  (forall k v,
      to_arrow (MapArrowMarshaller k v) (PyDict [])
      = Ok (MapScalar (arrow_dtype k) (arrow_dtype v) []) /\
      from_arrow (MapArrowMarshaller k v)
        (PyArrowScalar (MapScalar (arrow_dtype k) (arrow_dtype v) []))
      = Ok (PyDict [])) /\
  (forall m,
      to_arrow_array m [] = Ok (mkArray (arrow_dtype m) []) /\
      from_arrow_array m (mkArray (arrow_dtype m) []) = Ok []).
Proof.
  split; [|split].
  - intros e. split.
    + cbn [to_arrow]. destruct (is_basic e); reflexivity.
    + cbn [from_arrow]. destruct (is_basic e); reflexivity.
  - intros k v. split; [reflexivity|].
    rewrite from_arrow_map. destruct (is_basic k && is_basic v); reflexivity.
  - intros m. split.
    + destruct m as [t T|e|k v|c fs]; unfold to_arrow_array;
        [ | destruct (is_basic e) | destruct (is_basic k && is_basic v) | ];
        reflexivity.
    + destruct m as [t T|e|k v|c fs]; unfold from_arrow_array;
        [ | destruct (is_basic e) | | ]; reflexivity.
Qed.

(** ** Repeated keys in a decoded map *)

Lemma from_arrow_map_scalar (key value : ArrowMarshaller) (K V : DataType)
    (es : list (Scalar * Scalar)) :
  from_arrow (MapArrowMarshaller key value) (PyArrowScalar (MapScalar K V es))
  = (d <- dict_comp
            (fun e =>
               k <- from_arrow key (PyArrowScalar (fst e)) ;;
               v <- from_arrow value (PyArrowScalar (snd e)) ;;
               Ok (k, v)) es [] ;;
     Ok (PyDict d)).
Proof.
  rewrite from_arrow_map.
  destruct (is_basic key && is_basic value) eqn:Hb.
  - apply andb_prop in Hb as [Hk Hv].
    destruct key; try discriminate. destruct value; try discriminate.
    unfold map_from_arrow_native, dict_for_each.
    cbn [py_iter bind]. f_equal. rewrite dict_comp_map.
    apply dict_comp_ext. intros [k v] _.
    cbn [fst snd from_arrow call_as_py].
    destruct (as_py k) as [pk|e]; cbn [bind]; [|reflexivity].
    destruct (as_py v) as [pv|e]; cbn [bind]; reflexivity.
  - unfold map_from_arrow_indexed. cbn [py_len bind]. f_equal.
    apply dict_comp_seq. intros i [k v] Hi. cbn [py_getitem].
    rewrite (index_map _ es i (k, v) Hi).
    cbn [bind fst snd py_getitem index nth_error]. reflexivity.
Qed.

Lemma dict_comp_decoded {A} (f : A -> result (PyVal * PyVal)) (l : list A)
    (kvs : list (PyVal * PyVal)) :
  Forall2 (fun x kv => f x = Ok kv) l kvs ->
  Forall (fun kv => hashable (fst kv) = true) kvs ->
  forall d,
    dict_comp f l d
    = Ok (fold_left (fun d kv => dict_update d (fst kv) (snd kv)) kvs d).
Proof.
  induction 1 as [|x kv l kvs Hx _ IH]; intros Hh d; [reflexivity|].
  inversion Hh as [|? ? Hkv Hh']; subst.
  cbn [dict_comp fold_left]. rewrite Hx. cbn [bind].
  unfold dict_setitem. rewrite Hkv. cbn [bind]. now apply IH.
Qed.

(** Storing under a key that [==] tells apart from the other keys exactly as
    the keys are written. *)
Lemma dict_update_cases (d : list (PyVal * PyVal)) (k v : PyVal) :
  (forall k', In k' (map fst d) -> (key_eq k' k = true <-> k' = k)) ->
  (In k (map fst d) /\ map fst (dict_update d k v) = map fst d) \/
  (~ In k (map fst d) /\ dict_update d k v = d ++ [(k, v)]).
Proof.
  induction d as [|[k' v'] d IH]; intros H; cbn [dict_update map fst].
  - right. split; [intros [] | reflexivity].
  - destruct (key_eq k' k) eqn:E.
    + left. apply (H k' (or_introl eq_refl)) in E. subst k'.
      split; [now left | reflexivity].
    + assert (Hne : k' <> k).
      { intros ->. rewrite (proj2 (H k (or_introl eq_refl)) eq_refl) in E.
        discriminate. }
      destruct IH as [[Hin Hk]|[Hnin Hk]].
      * intros k'' Hk''. apply H. now right.
      * left. split; [now right | cbn; now rewrite Hk].
      * right. split; [|cbn; now rewrite Hk].
        intros [Heq|Hin]; [now apply Hne | now apply Hnin].
Qed.

Lemma dict_update_In (d : list (PyVal * PyVal)) (k v k0 v0 : PyVal) :
  (forall k', In k' (map fst d) -> (key_eq k' k = true <-> k' = k)) ->
  NoDup (map fst d) ->
  In (k0, v0) (dict_update d k v) <->
  (k0 = k /\ v0 = v) \/ (k0 <> k /\ In (k0, v0) d).
Proof.
  induction d as [|[k' v'] d IH]; intros H Hnd; cbn [dict_update].
  - split.
    + intros [E|[]]. injection E as <- <-. now left.
    + intros [[-> ->]|[_ []]]. now left.
  - inversion Hnd as [|? ? Hk' Hnd']; subst.
    destruct (key_eq k' k) eqn:E.
    + apply (H k' (or_introl eq_refl)) in E. subst k'. split.
      * intros [E|Hin]; [injection E as <- <-; now left|].
        right. split; [|now right].
        intros ->. apply Hk'. apply in_map_iff. now exists (k, v0).
      * intros [[-> ->]|[Hne [E|Hin]]]; [now left | | now right].
        injection E as <- _. now destruct Hne.
    + assert (Hne : k' <> k).
      { intros ->. rewrite (proj2 (H k (or_introl eq_refl)) eq_refl) in E.
        discriminate. }
      cbn [In]. rewrite IH; [|intros k'' Hk''; apply H; now right|assumption].
      split.
      * intros [E'|[Heq|[Hn Hin]]]; [|now left | right; split; auto].
        right. split; [|now left]. injection E' as <- _. exact Hne.
      * intros [Heq|[Hn [E'|Hin]]]; [right; now left | now left |].
        right. right. now split.
Qed.

Lemma last_entry_snoc (p : list (PyVal * PyVal)) (k v k0 v0 : PyVal) :
  (exists l1 l2, p ++ [(k, v)] = l1 ++ (k0, v0) :: l2 /\
                 ~ In k0 (map fst l2)) <->
  (k0 = k /\ v0 = v) \/
  (k0 <> k /\ exists l1 l2, p = l1 ++ (k0, v0) :: l2 /\ ~ In k0 (map fst l2)).
Proof.
  split.
  - intros (l1 & l2 & E & Hn).
    destruct (exists_last (l := (k0, v0) :: l2)) as (l' & x & El);
      [discriminate|].
    rewrite El in E. rewrite app_assoc in E.
    apply app_inj_tail in E as [-> <-].
    destruct l2 as [|y l2].
    + destruct l' as [|z l']; [|destruct l'; discriminate].
      injection El as <- <-. now left.
    + right.
      destruct (exists_last (l := y :: l2)) as (l2' & x & El2);
        [discriminate|].
      rewrite El2 in El, Hn.
      change ((k0, v0) :: l2' ++ [x]) with (((k0, v0) :: l2') ++ [x]) in El.
      apply app_inj_tail in El as [<- ->].
      rewrite map_app, in_app_iff in Hn. cbn in Hn. split.
      * intros ->. apply Hn. right. now left.
      * exists l1, l2'. split; [reflexivity|]. tauto.
  - intros [[-> ->]|(Hne & l1 & l2 & -> & Hn)].
    + exists p, []. split; [reflexivity | intros []].
    + exists l1, (l2 ++ [(k, v)]). split; [now rewrite <- app_assoc|].
      rewrite map_app, in_app_iff. cbn. intros [H|[H|[]]]; auto.
Qed.

(** The dict that storing the entries one after another builds, when [==]
    tells the keys apart exactly as they are written. *)
Lemma dict_of_entries (kvs : list (PyVal * PyVal)) :
  (forall k k', In k (map fst kvs) -> In k' (map fst kvs) ->
                (key_eq k k' = true <-> k = k')) ->
  let d := fold_left (fun d kv => dict_update d (fst kv) (snd kv)) kvs [] in
  NoDup (map fst d) /\
  (forall k, In k (map fst d) <-> In k (map fst kvs)) /\
  (forall k v, In (k, v) d <->
     exists l1 l2, kvs = l1 ++ (k, v) :: l2 /\ ~ In k (map fst l2)) /\
  (NoDup (map fst kvs) -> d = kvs) /\
  (~ NoDup (map fst kvs) -> (List.length d < List.length kvs)%nat) /\
  (List.length d <= List.length kvs)%nat.
Proof.
  induction kvs as [|[k v] p IH] using rev_ind; intros Heq; cbv zeta.
  - cbn. repeat split; try tauto; try lia; try constructor.
    + intros (l1 & l2 & E & _). destruct l1; discriminate.
    + intros H. destruct H. constructor.
  - rewrite fold_left_app. cbn [fold_left fst snd].
    set (d := fold_left (fun d kv => dict_update d (fst kv) (snd kv)) p [])
      in *.
    destruct IH as (Hnd & Hkeys & Hlast & Hid & Hlt & Hle).
    { intros a b Ha Hb. apply Heq; rewrite map_app, in_app_iff; now left. }
    assert (Hk : forall k', In k' (map fst d) ->
                            (key_eq k' k = true <-> k' = k)).
    { intros k' Hk'. apply Heq; rewrite map_app, in_app_iff.
      - left. now apply Hkeys.
      - right. now left. }
    assert (HndP : NoDup (map fst (p ++ [(k, v)])) <->
                   NoDup (map fst p) /\ ~ In k (map fst p)).
    { rewrite map_app. cbn [map fst]. split.
      - intros H. apply NoDup_remove in H. now rewrite app_nil_r in H.
      - intros [H1 H2].
        apply NoDup_app;
          [assumption | constructor; [intros [] | constructor] |].
        intros x Hx [<-|[]]. contradiction. }
    rewrite !length_app. cbn [List.length].
    split; [|split; [|split; [|split; [|split]]]].
    + destruct (dict_update_cases d k v Hk) as [[Hin E]|[Hnin E]];
        rewrite E; [assumption|].
      rewrite map_app. cbn [map fst].
      apply NoDup_app;
        [assumption | constructor; [intros [] | constructor] |].
      intros x Hx [<-|[]]. contradiction.
    + intros k0. rewrite (map_app fst p), in_app_iff. cbn [map fst In].
      destruct (dict_update_cases d k v Hk) as [[Hin E]|[Hnin E]];
        rewrite E.
      * rewrite Hkeys. split; [tauto|]. intros [H|[<-|[]]]; [assumption|].
        now apply Hkeys.
      * rewrite map_app, in_app_iff, Hkeys. cbn. tauto.
    + intros k0 v0. rewrite (dict_update_In d k v k0 v0 Hk Hnd).
      rewrite last_entry_snoc, Hlast. reflexivity.
    + intros H. apply HndP in H as [H1 H2]. rewrite <- (Hid H1) at 1.
      apply dict_update_fresh. intros k' y Hin.
      destruct (key_eq k' k) eqn:E; [|reflexivity].
      assert (Hk' : In k' (map fst d))
        by (apply in_map_iff; now exists (k', y)).
      apply (Hk k' Hk') in E. subst k'. exfalso. apply H2.
      now apply Hkeys.
    + intros H.
      destruct (dict_update_cases d k v Hk) as [[Hin E]|[Hnin E]].
      * rewrite <- (length_map fst), E, length_map. lia.
      * rewrite E, length_app. cbn [List.length].
        assert (~ NoDup (map fst p)).
        { intros Hp. apply H. apply HndP. split; [assumption|].
          intros Hin. apply Hnin. now apply Hkeys. }
        specialize (Hlt H0). lia.
    + destruct (dict_update_cases d k v Hk) as [[Hin E]|[Hnin E]].
      * rewrite <- (length_map fst), E, length_map. lia.
      * rewrite E, length_app. cbn [List.length]. lia.
Qed.

(** X11: repeated keys in a map scalar.  Let the keys and items of a map
    scalar decode through the children, to hashable keys among which [==]
    holds exactly between identical values (keys that are all str, say).
    Then [from_arrow], on either of its paths, returns a dict that holds
    each key once, with the item of the last entry that has the key: a
    repeated key overwrites the value stored before and adds no item.
    Without repeated keys the dict is the decoded entries in their order;
    with one it has fewer items than the scalar has entries. *)
Theorem map_from_arrow_last_wins (key value : ArrowMarshaller)
    (K V : DataType) (es : list (Scalar * Scalar))
    (kvs : list (PyVal * PyVal)) :
  Forall2 (fun e kv =>
             from_arrow key (PyArrowScalar (fst e)) = Ok (fst kv) /\
             from_arrow value (PyArrowScalar (snd e)) = Ok (snd kv))
    es kvs ->
  Forall (fun kv => hashable (fst kv) = true) kvs ->
  (forall k k', In k (map fst kvs) -> In k' (map fst kvs) ->
                (key_eq k k' = true <-> k = k')) ->
  exists d,
    from_arrow (MapArrowMarshaller key value)
      (PyArrowScalar (MapScalar K V es)) = Ok (PyDict d) /\
    NoDup (map fst d) /\
    (forall k v, In (k, v) d <->
       exists l1 l2, kvs = l1 ++ (k, v) :: l2 /\ ~ In k (map fst l2)) /\
    (NoDup (map fst kvs) -> d = kvs) /\
    (~ NoDup (map fst kvs) -> (List.length d < List.length es)%nat).
Proof.
  intros Hdec Hh Heq.
  exists (fold_left (fun d kv => dict_update d (fst kv) (snd kv)) kvs []).
  destruct (dict_of_entries kvs Heq) as (Hnd & _ & Hlast & Hid & Hlt & _).
  split; [|split; [|split; [|split]]]; try assumption.
  - rewrite from_arrow_map_scalar.
    rewrite (dict_comp_decoded _ es kvs); [reflexivity | | assumption].
    revert Hdec. apply Forall2_impl. intros [k v] [pk pv] [H1 H2].
    cbn [fst snd] in *. now rewrite H1, H2.
  - rewrite (Forall2_length Hdec). exact Hlt.
Qed.

Lemma map_from_arrow_last_wins_witness :
  let kvs := [(PyStr "a", PyInt 1); (PyStr "b", PyInt 3);
              (PyStr "a", PyInt 2)] in
  exists d,
    from_arrow (MapArrowMarshaller fa.string fa.int64)
      (PyArrowScalar
         (MapScalar pa_string pa_int64
            [(StringScalar "a", IntScalar pa_int64 1);
             (StringScalar "b", IntScalar pa_int64 3);
             (StringScalar "a", IntScalar pa_int64 2)])) = Ok (PyDict d) /\
    NoDup (map fst d) /\
    (forall k v, In (k, v) d <->
       exists l1 l2, kvs = l1 ++ (k, v) :: l2 /\ ~ In k (map fst l2)) /\
    (NoDup (map fst kvs) -> d = kvs) /\
    (~ NoDup (map fst kvs) -> (List.length d < 3)%nat).
Proof.
  cbv zeta.
  apply (map_from_arrow_last_wins fa.string fa.int64 pa_string pa_int64
           [(StringScalar "a", IntScalar pa_int64 1);
            (StringScalar "b", IntScalar pa_int64 3);
            (StringScalar "a", IntScalar pa_int64 2)]
           [(PyStr "a", PyInt 1); (PyStr "b", PyInt 3);
            (PyStr "a", PyInt 2)]).
  - repeat constructor.
  - repeat constructor.
  - intros k k' [<-|[<-|[<-|[]]]] [<-|[<-|[<-|[]]]];
      split; intros H; try reflexivity; try discriminate H.
Defined.

(** ** Structs: a missing field, and the attributes that are read *)

Lemma mapM_Raise_one {A B} (f : A -> result B) (l : list A) (e : Exception)
    (x : A) :
  (forall y, In y l -> (exists z, f y = Ok z) \/ f y = Raise e) ->
  In x l -> f x = Raise e -> mapM f l = Raise e.
Proof.
  induction l as [|y l IH]; intros Hall Hin Hx; [contradiction|]. simpl.
  destruct (Hall y (or_introl eq_refl)) as [[z Hz]|Hy];
    [|now rewrite Hy].
  rewrite Hz. cbn [bind].
  destruct Hin as [->|Hin]; [rewrite Hx in Hz; discriminate|].
  rewrite IH; [reflexivity | | assumption | assumption].
  intros w Hw. apply Hall. now right.
Qed.

Lemma sdict_get_not_In {A} (d : list (string * A)) (n : string) :
  ~ In n (map fst d) -> sdict_get d n = None.
Proof.
  induction d as [|[k v] d IH]; intros H; simpl; [reflexivity|].
  destruct (String.eqb k n) eqn:E.
  - apply String.eqb_eq in E. subst. exfalso. apply H. now left.
  - apply IH. intros Hin. apply H. now right.
Qed.

Lemma sdict_get_Some_In {A} (d : list (string * A)) (n : string) (x : A) :
  sdict_get d n = Some x -> In n (map fst d).
Proof.
  induction d as [|[k v] d IH]; simpl; [discriminate|].
  destruct (String.eqb k n) eqn:E.
  - apply String.eqb_eq in E. subst. now left.
  - intros H. right. now apply IH.
Qed.

(** X12: a struct scalar that lacks a declared field.  Let the field names
    of the scalar be distinct and each of its fields decode through the
    marshaller of its name; if some declared field is absent from the
    scalar, [from_arrow] raises [TypeError]: the call of the dataclass
    (whose fields have no defaults) misses an argument. *)
Theorem struct_from_arrow_missing_field
    (cls : string) (fields : list (string * ArrowMarshaller))
    (its : list (string * Scalar)) (n : string) :
  NoDup (map fst its) ->
  (forall nm s, In (nm, s) its ->
     exists x, field_from_arrow fields (PyStr nm) (PyArrowScalar s) = Ok x) ->
  In n (map fst fields) -> ~ In n (map fst its) ->
  from_arrow (StructArrowMarshaller cls fields)
    (PyArrowScalar (StructScalar its))
  = Raise TypeError.
Proof.
  intros Hnd Hdec Hn Hmiss.
  set (g := fun nm =>
              match sdict_get its nm with
              | Some s =>
                  match field_from_arrow fields (PyStr nm) (PyArrowScalar s)
                  with
                  | Ok x => x
                  | Raise _ => PyNone
                  end
              | None => PyNone
              end).
  rewrite from_arrow_struct. cbn [py_items bind].
  rewrite (map_ext_in _ (fun nv => Ok (PyStr (fst nv), PyArrowScalar (snd nv)))).
  2:{ intros [nm s] Hin. unfold struct_item. cbn [fst snd].
      rewrite (proj1 (NoDup_count_occ' string_dec _) Hnd nm);
        [reflexivity|]. apply in_map_iff. now exists (nm, s). }
  unfold dict_for_each. rewrite dict_comp_map. cbn [bind].
  match goal with
  | |- context [dict_comp ?f its []] =>
      assert (Hcomp : dict_comp f its []
                      = Ok (map (fun nx => (PyStr (fst nx), snd nx))
                              (map (fun nv => (fst nv, g (fst nv))) its)))
  end.
  { apply (dict_comp_fields _ g its Hnd) with (d := []); [|intros k []].
    intros [nm s] Hin. cbn [fst snd].
    destruct (Hdec nm s Hin) as [x Hx]. rewrite Hx. cbn [bind].
    unfold g. now rewrite (sdict_get_In its nm s Hnd Hin), Hx. }
  rewrite Hcomp. cbn [bind]. unfold dataclass_new.
  replace (forallb _ _) with true.
  - rewrite (mapM_Raise_one _ _ TypeError n); [reflexivity| |assumption|].
    + intros y _. destruct (dict_get _ (PyStr y)); [left; eauto | now right].
    + rewrite dict_get_str, sdict_get_not_In; [reflexivity|].
      now rewrite map_map.
  - symmetry. apply forallb_forall. intros [k x] Hin.
    apply in_map_iff in Hin as ([nm y] & E & Hin). injection E as <- <-.
    apply in_map_iff in Hin as ([nm' s] & E & Hin). injection E as <- <-.
    cbn [fst snd]. apply existsb_exists. exists nm'.
    split; [|apply String.eqb_refl].
    destruct (Hdec nm' s Hin) as [x Hx]. cbn [field_from_arrow] in Hx.
    destruct (sdict_get fields nm') as [m|] eqn:Hm; [|discriminate].
    now apply (sdict_get_Some_In fields nm' m).
Qed.

Lemma struct_from_arrow_missing_field_witness :
  from_arrow PersonMarshaller
    (PyArrowScalar
       (StructScalar [("name", StringScalar "Ada");
                      ("gender", BooleanScalar true)]))
  = Raise TypeError.
Proof.
  apply (struct_from_arrow_missing_field _ _ _ "age").
  - repeat constructor; simpl; intuition discriminate.
  - intros nm s [E|[E|[]]]; injection E as <- <-; eexists; reflexivity.
  - simpl. tauto.
  - simpl. intuition discriminate.
Defined.

Lemma convert_struct_ext (ts : list (string * DataType))
    (d d' : list (PyVal * PyVal)) :
  (forall n, In n (map fst ts) ->
             dict_get d (PyStr n) = dict_get d' (PyStr n)) ->
  convert (pa_struct ts) (PyDict d) = convert (pa_struct ts) (PyDict d').
Proof.
  intros H. cbn [convert]. f_equal.
  induction ts as [|[n t] ts IH]; [reflexivity|].
  rewrite (H n (or_introl eq_refl)), IH; [reflexivity|].
  intros k Hk. apply H. now right.
Qed.

(** X13: a struct marshaller reads the declared attributes of the value and
    nothing else: two objects whose attribute dictionaries agree on every
    declared field name are encoded alike, whatever their classes, the
    order of their attributes and their further attributes. *)
Theorem struct_to_arrow_declared_attributes
    (cls : string) (fields : list (string * ArrowMarshaller))
    (c1 c2 : string) (d1 d2 : list (string * PyVal)) :
  (forall n, In n (map fst fields) -> sdict_get d1 n = sdict_get d2 n) ->
  to_arrow (StructArrowMarshaller cls fields) (PyObject c1 d1)
  = to_arrow (StructArrowMarshaller cls fields) (PyObject c2 d2).
Proof.
  intros H. cbn [to_arrow getattr_dict bind arrow_dtype].
  unfold pa_scalar, as_dict.
  rewrite (convert_struct_ext _ _
             (map (fun nv => (PyStr (fst nv), snd nv)) d2)); [reflexivity|].
  intros n Hn. rewrite !dict_get_str. apply H.
  rewrite map_map in Hn. exact Hn.
Qed.

Lemma struct_to_arrow_declared_attributes_witness :
  to_arrow PersonMarshaller (person "Ada" 36 true)
  = to_arrow PersonMarshaller
      (PyObject "Employee"
         [("badge", PyInt 7); ("gender", PyBool true); ("age", PyInt 36);
          ("name", PyStr "Ada")]).
Proof.
  apply struct_to_arrow_declared_attributes.
  intros n [<-|[<-|[<-|[]]]]; reflexivity.
Defined.
